(** * Flow Activator: a shallow embedding of [activateFlows.js]

    The script asks the operator for flow API names and target orgs, lists
    the authenticated orgs and resolves per-org credentials through the
    [sfdx] command line, and drives four tooling-API requests per flow.

    The embedding keeps the program's shape: JavaScript values as a small
    inductive type with the language's truthiness, property access and
    strict equality; the script's functions as computations in a monad that
    threads the interaction log and carries thrown errors and
    [process.exit]; everything outside the script (the HTTP client, child
    processes, the prompt package, the banner package, [JSON.parse]) as an
    environment that answers each request as a function of the log so far. *)

From Stdlib Require Import String Ascii List ZArith Bool Lia DecimalString.
Import ListNotations.
Local Open Scope list_scope.
Local Open Scope string_scope.
Set Warnings "-register-all,-notation-for-abbreviation".

(** ** JavaScript values *)

(** The values the script handles are those [JSON.parse] and the HTTP client
    produce, plus [undefined] for absent properties.  Numbers are kept to
    the integers (version numbers); object fields are an association list,
    looked up by first match. *)
Inductive JsVal : Type :=
| JUndefined
| JNull
| JBool (b : bool)
| JNum (n : Z)
| JStr (s : string)
| JArr (elems : list JsVal)
| JObj (fields : list (string * JsVal)).

(** A thrown [Error]; the script only ever reads its [message]. *)
Record Exn : Type := mkExn { message : string }.

Definition TypeError (msg : string) : Exn := mkExn msg.

(** ToBoolean, as used by [!x], [x || y] and [x ? a : b]. *)
Definition truthy (v : JsVal) : bool :=
  match v with
  | JUndefined | JNull => false
  | JBool b => b
  | JNum n => negb (Z.eqb n 0)
  | JStr s => negb (String.eqb s EmptyString)
  | JArr _ | JObj _ => true
  end.

Fixpoint lookup_field (key : string) (fields : list (string * JsVal)) : JsVal :=
  match fields with
  | [] => JUndefined
  | (k, v) :: rest => if String.eqb k key then v else lookup_field key rest
  end.

(** [v.key] for the data keys the script reads: it throws on [undefined] and
    [null], reads the field of an object, and is [undefined] on every other
    value. *)
Definition get_prop (v : JsVal) (key : string) : Exn + JsVal :=
  match v with
  | JUndefined =>
      inl (TypeError ("Cannot read properties of undefined (reading '" ++ key ++ "')"))
  | JNull =>
      inl (TypeError ("Cannot read properties of null (reading '" ++ key ++ "')"))
  | JObj fields => inr (lookup_field key fields)
  | _ => inr JUndefined
  end.

(** [v?.key]: optional chaining short-circuits on [undefined] and [null]. *)
Definition opt_prop (v : JsVal) (key : string) : JsVal :=
  match get_prop v key with
  | inl _ => JUndefined
  | inr x => x
  end.

(** [a === b].  Primitives compare by value.  Two objects or arrays are
    equal only when they are the same reference; the operands compared by
    the script come out of two different HTTP responses, so they never are. *)
Definition strict_eq (a b : JsVal) : bool :=
  match a, b with
  | JUndefined, JUndefined => true
  | JNull, JNull => true
  | JBool x, JBool y => Bool.eqb x y
  | JNum x, JNum y => Z.eqb x y
  | JStr x, JStr y => String.eqb x y
  | _, _ => false
  end.

Definition string_of_Z (n : Z) : string := NilZero.string_of_int (Z.to_int n).

(** ToString, as performed by a template literal's [${v}]. *)
Fixpoint toStr (v : JsVal) : string :=
  match v with
  | JUndefined => "undefined"
  | JNull => "null"
  | JBool true => "true"
  | JBool false => "false"
  | JNum n => string_of_Z n
  | JStr s => s
  | JArr elems =>
      (fix join (l : list JsVal) : string :=
         match l with
         | [] => EmptyString
         | x :: rest =>
             let sx := match x with
                       | JUndefined | JNull => EmptyString
                       | _ => toStr x
                       end in
             match rest with
             | [] => sx
             | _ :: _ => sx ++ "," ++ join rest
             end
         end) elems
  | JObj _ => "[object Object]"
  end.

(** [const [x] = v]: the first value of the iteration of [v].  Arrays and
    strings are iterable; any other value throws. *)
Definition destructure_first (v : JsVal) : Exn + JsVal :=
  match v with
  | JArr elems => inr (hd JUndefined elems)
  | JStr EmptyString => inr JUndefined
  | JStr (String c _) => inr (JStr (String c EmptyString))
  | _ => inl (TypeError (toStr v ++ " is not iterable"))
  end.

(** ** Strings: [split(';')] and [trim()] *)

Definition semicolon : ascii := ";"%char.
Definition quote : ascii := "'"%char.

(** [input.split(';')]: always at least one segment. *)
Fixpoint split_semi (s : string) : list string :=
  match s with
  | EmptyString => [EmptyString]
  | String c rest =>
      if Ascii.eqb c semicolon then EmptyString :: split_semi rest
      else match split_semi rest with
           | [] => [String c EmptyString]
           | seg :: segs => String c seg :: segs
           end
  end.

(** Strings hold the UTF-8 encoding of the script's strings.  Splitting at
    the byte [;] is splitting at the character, since that byte occurs in
    no multi-byte sequence.  [trim] removes the white space and line
    terminators of ECMAScript, which are, with their encodings:
    U+0009 to U+000D and U+0020 (one byte);
    U+00A0 (C2 A0);
    U+1680 (E1 9A 80);
    U+2000 to U+200A (E2 80 80 to E2 80 8A);
    U+2028, U+2029 and U+202F (E2 80 A8, E2 80 A9, E2 80 AF);
    U+205F (E2 81 9F); U+3000 (E3 80 80); U+FEFF (EF BB BF). *)
Definition is_space1 (a : ascii) : bool :=
  let x := nat_of_ascii a in
  (Nat.eqb x 32 || (Nat.leb 9 x && Nat.leb x 13))%bool.

Definition is_space2 (a b : ascii) : bool :=
  (Nat.eqb (nat_of_ascii a) 194 && Nat.eqb (nat_of_ascii b) 160)%bool.

Definition is_space3 (a b c : ascii) : bool :=
  let x := nat_of_ascii a in
  let y := nat_of_ascii b in
  let z := nat_of_ascii c in
  ((Nat.eqb x 225 && Nat.eqb y 154 && Nat.eqb z 128)
   || (Nat.eqb x 226 && Nat.eqb y 128
       && ((Nat.leb 128 z && Nat.leb z 138)
           || Nat.eqb z 168 || Nat.eqb z 169 || Nat.eqb z 175))
   || (Nat.eqb x 226 && Nat.eqb y 129 && Nat.eqb z 159)
   || (Nat.eqb x 227 && Nat.eqb y 128 && Nat.eqb z 128)
   || (Nat.eqb x 239 && Nat.eqb y 187 && Nat.eqb z 191))%bool.

Arguments is_space1 : simpl never.
Arguments is_space2 : simpl never.
Arguments is_space3 : simpl never.

(** The rest of [s] after the white-space character it starts with, if it
    starts with one. *)
Definition strip_space (s : string) : option string :=
  match s with
  | EmptyString => None
  | String a rest =>
      if is_space1 a then Some rest
      else match rest with
           | EmptyString => None
           | String b rest2 =>
               if is_space2 a b then Some rest2
               else match rest2 with
                    | EmptyString => None
                    | String c rest3 =>
                        if is_space3 a b c then Some rest3 else None
                    end
           end
  end.

(** [s] consists of white-space characters only. *)
Fixpoint all_space (s : string) : bool :=
  match s with
  | EmptyString => true
  | String a rest =>
      if is_space1 a then all_space rest
      else match rest with
           | EmptyString => false
           | String b rest2 =>
               if is_space2 a b then all_space rest2
               else match rest2 with
                    | EmptyString => false
                    | String c rest3 =>
                        if is_space3 a b c then all_space rest3 else false
                    end
           end
  end.

(** [s.trimStart()]: white-space characters are dropped from the front as
    long as there is one. *)
Fixpoint trimStart (s : string) : string :=
  match s with
  | EmptyString => EmptyString
  | String a rest =>
      if is_space1 a then trimStart rest
      else match rest with
           | EmptyString => s
           | String b rest2 =>
               if is_space2 a b then trimStart rest2
               else match rest2 with
                    | EmptyString => s
                    | String c rest3 =>
                        if is_space3 a b c then trimStart rest3 else s
                    end
           end
  end.

(** [s.trimEnd()]: the string is cut where its trailing run of white-space
    characters starts. *)
Fixpoint trimEnd (s : string) : string :=
  match s with
  | EmptyString => EmptyString
  | String c rest => if all_space s then EmptyString else String c (trimEnd rest)
  end.

Definition trim (s : string) : string := trimEnd (trimStart s).

(** ** The interaction log and the environment *)

(** The request headers built at the top of [activateLatestFlow]. *)
Record Headers : Type := mkHeaders {
  Authorization : string;
  Content_Type : string
}.

(** An entry of the multi-select prompt's [choices]. *)
Record Choice : Type := mkChoice {
  title : JsVal;
  value : JsVal
}.

(** What the second [prompts] call resolves to: either key is absent when
    the operator left before answering it. *)
Record OrgAnswers : Type := mkOrgAnswers {
  selectedOrgs : option (list JsVal);
  confirmation : option bool
}.

(** Everything observable, in the order it happens.  A request is logged
    together with the answer it got. *)
Inductive Event : Type :=
| EFiglet (text : string) (r : Exn + string)
| EExec (command : string) (r : Exn + string)
| EGet (url : string) (headers : Headers) (q : string) (r : Exn + JsVal)
| EPatch (url : string) (body : JsVal) (headers : Headers) (r : Exn + JsVal)
| EPromptFlows (attempts : list string)
| EPromptOrgs (choices : list Choice) (answers : OrgAnswers)
| ELog (line : string)
| EError (line : string).

Definition Log : Type := list Event.

(** The world outside the script.  Each effectful operation answers as a
    function of the log so far, which lets an environment change its mind
    between calls (a server whose state the patch request modifies, a
    network that fails on the third request).  [inl] is a thrown error:
    for the HTTP client a network error or a non-success status, for
    [execSync] a command that cannot be run or exits non-zero, for
    [JSON.parse] a syntax error.  [inr] of the HTTP client is the response's
    [data]. *)
Record Env : Type := mkEnv {
  figlet_textSync : Log -> string -> Exn + string;
  execSync : Log -> string -> Exn + string;
  JSON_parse : string -> Exn + JsVal;
  axios_get : Log -> string -> Headers -> string -> Exn + JsVal;
  axios_patch : Log -> string -> JsVal -> Headers -> Exn + JsVal;
  operator_flows : Log -> list string;
  operator_orgs : Log -> list Choice -> OrgAnswers
}.

(** ** The monad of script computations *)

(** A computation ends with a value, with a thrown error, or with the whole
    process gone by [process.exit]. *)
Inductive Res (A : Type) : Type :=
| Val (a : A)
| Throw (e : Exn)
| Exit (code : Z).
Arguments Val {A} a.
Arguments Throw {A} e.
Arguments Exit {A} code.

Definition M (A : Type) : Type := Log -> Res A * Log.

Definition ret {A} (a : A) : M A := fun tr => (Val a, tr).

Definition bind {A B} (m : M A) (k : A -> M B) : M B :=
  fun tr =>
    match m tr with
    | (Val a, tr') => k a tr'
    | (Throw e, tr') => (Throw e, tr')
    | (Exit c, tr') => (Exit c, tr')
    end.

Notation "x <- m ;; k" := (bind m (fun x => k))
  (at level 61, m at next level, right associativity).
Notation "m ;;; k" := (bind m (fun _ => k))
  (at level 61, right associativity).

(** [try { body } catch (error) { handler }]: a [process.exit] inside the body
    is not caught. *)
Definition try_catch {A} (body : M A) (handler : Exn -> M A) : M A :=
  fun tr =>
    match body tr with
    | (Throw e, tr') => handler e tr'
    | r => r
    end.

(** A pure step that may throw. *)
Definition lift {A} (r : Exn + A) : M A :=
  fun tr =>
    match r with
    | inl e => (Throw e, tr)
    | inr a => (Val a, tr)
    end.

Definition emit (ev : Event) : M unit := fun tr => (Val tt, (tr ++ [ev])%list).

Definition console_log (line : string) : M unit := emit (ELog line).
Definition console_error (line : string) : M unit := emit (EError line).

Definition process_exit {A} (code : Z) : M A := fun tr => (Exit code, tr).

(** [for (const x of xs) { body }] *)
Fixpoint for_of {A} (xs : list A) (body : A -> M unit) : M unit :=
  match xs with
  | [] => ret tt
  | x :: rest => body x ;;; for_of rest body
  end.

(** ** The script *)

Definition newline : string := String (ascii_of_nat 10) EmptyString.

(** [validate: value => value ? true : 'Please enter at least one flow name'] *)
Inductive Validation : Type :=
| Valid
| Invalid (msg : string).

Definition flowQuestion_validate (value : string) : Validation :=
  if truthy (JStr value) then Valid else Invalid "Please enter at least one flow name".

(** [format: input => input.split(';').map(name => name.trim())] *)
Definition flowQuestion_format (input : string) : list string :=
  map trim (split_semi input).

(** [validate: value => value.length > 0 ? true : 'You must select at least one org'].
    Whether the package consults it for a multi-select question is left to
    the environment: [operator_orgs] may answer with any selection. *)
Definition orgQuestion_validate (value : list JsVal) : Validation :=
  if Nat.ltb 0 (length value) then Valid else Invalid "You must select at least one org".

(** Modelled from the spec: the [prompts] package, which runs the question,
    is not part of the sources.  On a text question every submission goes
    through [validate]; one that is not accepted is rejected and the operator
    is prompted again; the first accepted one is passed through [format] and
    becomes the answer.  When the operator cancels without an accepted
    submission the answer is absent. *)
Fixpoint prompts_text (validate : string -> Validation)
    (format : string -> list string) (attempts : list string)
  : option (list string) :=
  match attempts with
  | [] => None
  | s :: rest =>
      match validate s with
      | Valid => Some (format s)
      | Invalid _ => prompts_text validate format rest
      end
  end.

(** [response.data.records || []], then [const [first] = ...]. *)
Definition first_record (data : JsVal) : Exn + JsVal :=
  match get_prop data "records" with
  | inl e => inl e
  | inr records => destructure_first (if truthy records then records else JArr [])
  end.

(** [nonScratchOrgs.filter(org => org.connectedStatus === 'Connected')]
    on the elements of an array; the callback throws on a [null] element. *)
Fixpoint filter_connected (orgs : list JsVal) : Exn + list JsVal :=
  match orgs with
  | [] => inr []
  | org :: rest =>
      match get_prop org "connectedStatus" with
      | inl e => inl e
      | inr status =>
          match filter_connected rest with
          | inl e => inl e
          | inr kept =>
              inr (if strict_eq status (JStr "Connected") then org :: kept else kept)
          end
      end
  end.

(** [v.filter(...)]: only arrays have the method. *)
Definition array_filter_connected (v : JsVal) : Exn + list JsVal :=
  match v with
  | JArr orgs => filter_connected orgs
  | JUndefined | JNull => inl (TypeError "Cannot read properties of null (reading 'filter')")
  | _ => inl (TypeError "nonScratchOrgs.filter is not a function")
  end.

(** [orgs.map(org => ({ title: org.alias, value: org.alias }))] *)
Fixpoint org_choices (orgs : list JsVal) : Exn + list Choice :=
  match orgs with
  | [] => inr []
  | org :: rest =>
      match get_prop org "alias" with
      | inl e => inl e
      | inr alias =>
          match org_choices rest with
          | inl e => inl e
          | inr cs => inr (mkChoice alias alias :: cs)
          end
      end
  end.

Definition toolingQuery (flowApiName : string) : string :=
  "SELECT Id, VersionNumber FROM Flow WHERE Definition.DeveloperName = '"
    ++ flowApiName ++ "' ORDER BY VersionNumber DESC LIMIT 1".

Definition definitionQuery (flowApiName : string) : string :=
  "SELECT Id FROM FlowDefinition WHERE DeveloperName = '" ++ flowApiName ++ "'".

Definition verificationQuery (flowDefinitionId : JsVal) : string :=
  "SELECT ActiveVersionId FROM FlowDefinition WHERE Id = '"
    ++ toStr flowDefinitionId ++ "'".

Definition queryUrl (instanceUrl : JsVal) : string :=
  toStr instanceUrl ++ "/services/data/v59.0/tooling/query".

Definition definitionUrl (instanceUrl flowDefinitionId : JsVal) : string :=
  toStr instanceUrl ++ "/services/data/v59.0/tooling/sobjects/FlowDefinition/"
    ++ toStr flowDefinitionId.

Definition mkRequestHeaders (accessToken : JsVal) : Headers :=
  {| Authorization := "Bearer " ++ toStr accessToken;
     Content_Type := "application/json" |}.

(** [{ Metadata: { activeVersionNumber: latestVersionNumber } }] *)
Definition activationMetadata (latestVersionNumber : JsVal) : JsVal :=
  JObj [("Metadata", JObj [("activeVersionNumber", latestVersionNumber)])].

Section Script.

Variable env : Env.

(** *** Effectful primitives, answered by the environment *)

Definition answer {A} (r : Exn + A) : Res A :=
  match r with
  | inl e => Throw e
  | inr a => Val a
  end.

Definition figlet (text : string) : M string :=
  fun tr =>
    let r := figlet_textSync env tr text in
    (answer r, (tr ++ [EFiglet text r])%list).

Definition exec (command : string) : M string :=
  fun tr =>
    let r := execSync env tr command in
    (answer r, (tr ++ [EExec command r])%list).

Definition http_get (url : string) (headers : Headers) (q : string) : M JsVal :=
  fun tr =>
    let r := axios_get env tr url headers q in
    (answer r, (tr ++ [EGet url headers q r])%list).

Definition http_patch (url : string) (body : JsVal) (headers : Headers) : M JsVal :=
  fun tr =>
    let r := axios_patch env tr url body headers in
    (answer r, (tr ++ [EPatch url body headers r])%list).

Definition prompts_flowQuestion : M (option (list string)) :=
  fun tr =>
    let attempts := operator_flows env tr in
    (Val (prompts_text flowQuestion_validate flowQuestion_format attempts),
     (tr ++ [EPromptFlows attempts])%list).

Definition prompts_orgQuestions (choices : list Choice) : M OrgAnswers :=
  fun tr =>
    let answers := operator_orgs env tr choices in
    (Val answers, (tr ++ [EPromptOrgs choices answers])%list).

(** *** [displayAsciiArt] *)
Definition displayAsciiArt (text : string) : M unit :=
  try_catch
    (asciiArt <- figlet text ;;
     console_log asciiArt)
    (fun error =>
       console_error ("Error generating ASCII art: " ++ message error)).

(** *** [getAuthenticatedOrgs] *)
Definition getAuthenticatedOrgs : M (list JsVal) :=
  try_catch
    (result <- exec "sfdx force:org:list --json" ;;
     parsed <- lift (JSON_parse env result) ;;
     res <- lift (get_prop parsed "result") ;;
     field <- lift (get_prop res "nonScratchOrgs") ;;
     let nonScratchOrgs :=
       if strict_eq field JUndefined then JArr [] else field in
     lift (array_filter_connected nonScratchOrgs))
    (fun error =>
       console_error ("Error retrieving orgs: " ++ message error) ;;;
       process_exit 1).

(** *** [getSfInstance] *)
Definition getSfInstance (orgAlias : JsVal) : M (JsVal * JsVal) :=
  try_catch
    (result <- exec ("sfdx force:org:display -u " ++ toStr orgAlias ++ " --json") ;;
     parsed <- lift (JSON_parse env result) ;;
     res <- lift (get_prop parsed "result") ;;
     accessToken <- lift (get_prop res "accessToken") ;;
     instanceUrl <- lift (get_prop res "instanceUrl") ;;
     ret (accessToken, instanceUrl))
    (fun error =>
       console_error ("Error retrieving org details: " ++ message error) ;;;
       process_exit 1).

(** *** [activateLatestFlow] *)
Definition activateLatestFlow (flowApiName : string)
    (accessToken instanceUrl : JsVal) : M unit :=
  let headers := mkRequestHeaders accessToken in
  try_catch
    ((* Query the latest flow version *)
     response <- http_get (queryUrl instanceUrl) headers (toolingQuery flowApiName) ;;
     latestFlow <- lift (first_record response) ;;
     if negb (truthy latestFlow) then
       console_log ("Flow '" ++ flowApiName ++ "' not found.")
     else
       latestVersionId <- lift (get_prop latestFlow "Id") ;;
       latestVersionNumber <- lift (get_prop latestFlow "VersionNumber") ;;
       (* Query the FlowDefinition to get the Id *)
       response <- http_get (queryUrl instanceUrl) headers (definitionQuery flowApiName) ;;
       flowDefinition <- lift (first_record response) ;;
       if negb (truthy flowDefinition) then
         console_log ("FlowDefinition for '" ++ flowApiName ++ "' not found.")
       else
         flowDefinitionId <- lift (get_prop flowDefinition "Id") ;;
         (* Update the FlowDefinition to activate the latest version *)
         let metadata := activationMetadata latestVersionNumber in
         http_patch (definitionUrl instanceUrl flowDefinitionId) metadata headers ;;;
         (* Verify the update *)
         response <- http_get (queryUrl instanceUrl) headers
                       (verificationQuery flowDefinitionId) ;;
         verificationResult <- lift (first_record response) ;;
         if strict_eq (opt_prop verificationResult "ActiveVersionId") latestVersionId then
           console_log ("Successfully activated flow '" ++ flowApiName
                          ++ "' to version " ++ toStr latestVersionNumber ++ ".")
         else
           console_log ("Failed to verify activation of flow '" ++ flowApiName
                          ++ "' to version " ++ toStr latestVersionNumber ++ "."))
    (fun error =>
       console_error ("Error activating flow: " ++ message error)).

(** *** [main]: the loop over the selected orgs and the flow names *)
Definition activationLoop (selectedOrgs : list JsVal) (flowNames : list string)
  : M unit :=
  for_of selectedOrgs (fun orgAlias =>
    console_log ("🚀 Activating flows in org: " ++ toStr orgAlias) ;;;
    cred <- getSfInstance orgAlias ;;
    let '(accessToken, instanceUrl) := cred in
    for_of flowNames (fun flowApiName =>
      activateLatestFlow flowApiName accessToken instanceUrl)).

(** [for (const x of v)] on a possibly absent array. *)
Definition iterate (v : option (list JsVal)) : Exn + list JsVal :=
  match v with
  | Some l => inr l
  | None => inl (TypeError "orgAnswers.selectedOrgs is not iterable")
  end.

(** *** [main] *)
Definition main : M unit :=
  displayAsciiArt "Flow Activator" ;;;
  console_log ("Source: https://github.com/anushpoudel/flow-activator-js.git" ++ newline) ;;;
  flowNames <- prompts_flowQuestion ;;
  match flowNames with
  | None => console_log "Operation cancelled."
  | Some flowNames =>
      orgs <- getAuthenticatedOrgs ;;
      orgChoices <- lift (org_choices orgs) ;;
      orgAnswers <- prompts_orgQuestions orgChoices ;;
      match confirmation orgAnswers with
      | Some true =>
          selected <- lift (iterate (selectedOrgs orgAnswers)) ;;
          activationLoop selected flowNames
      | _ => console_log "Operation cancelled."
      end
  end.

(** [main().catch(error => console.error(`Error: ${error.message}`))] *)
Definition program : M unit :=
  try_catch main (fun error => console_error ("Error: " ++ message error)).

End Script.

(** ** Reading the log *)

(** The outcome of one activation, as the console line reports it. *)
Inductive Outcome : Type :=
| Activated (versionNumber : JsVal)
| FlowNotFound
| DefinitionNotFound
| VerificationFailed (versionNumber : JsVal)
| RemoteError (msg : string).

(** The status line of an outcome. *)
Definition status_line (flowApiName : string) (o : Outcome) : Event :=
  match o with
  | Activated n =>
      ELog ("Successfully activated flow '" ++ flowApiName
              ++ "' to version " ++ toStr n ++ ".")
  | FlowNotFound => ELog ("Flow '" ++ flowApiName ++ "' not found.")
  | DefinitionNotFound =>
      ELog ("FlowDefinition for '" ++ flowApiName ++ "' not found.")
  | VerificationFailed n =>
      ELog ("Failed to verify activation of flow '" ++ flowApiName
              ++ "' to version " ++ toStr n ++ ".")
  | RemoteError msg => EError ("Error activating flow: " ++ msg)
  end.

Inductive OutcomeKind : Type :=
| KActivated | KFlowNotFound | KDefinitionNotFound | KVerificationFailed | KRemoteError.

Definition kind_of (o : Outcome) : OutcomeKind :=
  match o with
  | Activated _ => KActivated
  | FlowNotFound => KFlowNotFound
  | DefinitionNotFound => KDefinitionNotFound
  | VerificationFailed _ => KVerificationFailed
  | RemoteError _ => KRemoteError
  end.

Definition is_get (ev : Event) : bool :=
  match ev with EGet _ _ _ _ => true | _ => false end.

Definition is_patch (ev : Event) : bool :=
  match ev with EPatch _ _ _ _ => true | _ => false end.

Definition is_request (ev : Event) : bool := (is_get ev || is_patch ev)%bool.

Definition is_console (ev : Event) : bool :=
  match ev with ELog _ | EError _ => true | _ => false end.

(** Running a computation in an environment from a log. *)
Definition result_of {A} (r : Res A * Log) : Res A := fst r.
Definition log_of {A} (r : Res A * Log) : Log := snd r.

(** ** The four remote steps, as they appear in the log *)

Section Steps.

Variables (flowApiName : string) (accessToken instanceUrl : JsVal).

(** Step 1: the latest flow version, by developer name. *)
Definition versionLookup (r : Exn + JsVal) : Event :=
  EGet (queryUrl instanceUrl) (mkRequestHeaders accessToken)
       (toolingQuery flowApiName) r.

(** Step 2: the flow definition, by developer name. *)
Definition definitionLookup (r : Exn + JsVal) : Event :=
  EGet (queryUrl instanceUrl) (mkRequestHeaders accessToken)
       (definitionQuery flowApiName) r.

(** Step 3: the partial update of the definition record. *)
Definition activationPatch (flowDefinitionId versionNumber : JsVal)
    (r : Exn + JsVal) : Event :=
  EPatch (definitionUrl instanceUrl flowDefinitionId)
         (activationMetadata versionNumber) (mkRequestHeaders accessToken) r.

(** Step 4: the verification query on the definition record. *)
Definition verificationLookup (flowDefinitionId : JsVal) (r : Exn + JsVal) : Event :=
  EGet (queryUrl instanceUrl) (mkRequestHeaders accessToken)
       (verificationQuery flowDefinitionId) r.

(** The requests one activation can leave in the log, with the outcome
    its status line reports.  A lookup "finds" [rec] when the first
    element of the response's [records] is read as [rec] and is truthy. *)
Inductive ActivationLog : list Event -> Outcome -> Prop :=
| AL_version_error e :
    ActivationLog [versionLookup (inl e)] (RemoteError (message e))
| AL_version_unreadable d1 e :
    first_record d1 = inl e ->
    ActivationLog [versionLookup (inr d1)] (RemoteError (message e))
| AL_flow_not_found d1 rec1 :
    first_record d1 = inr rec1 -> truthy rec1 = false ->
    ActivationLog [versionLookup (inr d1)] FlowNotFound
| AL_definition_error d1 rec1 e :
    first_record d1 = inr rec1 -> truthy rec1 = true ->
    ActivationLog [versionLookup (inr d1); definitionLookup (inl e)]
                  (RemoteError (message e))
| AL_definition_unreadable d1 rec1 d2 e :
    first_record d1 = inr rec1 -> truthy rec1 = true ->
    first_record d2 = inl e ->
    ActivationLog [versionLookup (inr d1); definitionLookup (inr d2)]
                  (RemoteError (message e))
| AL_definition_not_found d1 rec1 d2 rec2 :
    first_record d1 = inr rec1 -> truthy rec1 = true ->
    first_record d2 = inr rec2 -> truthy rec2 = false ->
    ActivationLog [versionLookup (inr d1); definitionLookup (inr d2)]
                  DefinitionNotFound
| AL_patch_error d1 rec1 d2 rec2 e :
    first_record d1 = inr rec1 -> truthy rec1 = true ->
    first_record d2 = inr rec2 -> truthy rec2 = true ->
    ActivationLog
      [versionLookup (inr d1); definitionLookup (inr d2);
       activationPatch (opt_prop rec2 "Id") (opt_prop rec1 "VersionNumber") (inl e)]
      (RemoteError (message e))
| AL_verification_error d1 rec1 d2 rec2 p e :
    first_record d1 = inr rec1 -> truthy rec1 = true ->
    first_record d2 = inr rec2 -> truthy rec2 = true ->
    ActivationLog
      [versionLookup (inr d1); definitionLookup (inr d2);
       activationPatch (opt_prop rec2 "Id") (opt_prop rec1 "VersionNumber") (inr p);
       verificationLookup (opt_prop rec2 "Id") (inl e)]
      (RemoteError (message e))
| AL_verification_unreadable d1 rec1 d2 rec2 p d4 e :
    first_record d1 = inr rec1 -> truthy rec1 = true ->
    first_record d2 = inr rec2 -> truthy rec2 = true ->
    first_record d4 = inl e ->
    ActivationLog
      [versionLookup (inr d1); definitionLookup (inr d2);
       activationPatch (opt_prop rec2 "Id") (opt_prop rec1 "VersionNumber") (inr p);
       verificationLookup (opt_prop rec2 "Id") (inr d4)]
      (RemoteError (message e))
| AL_verified d1 rec1 d2 rec2 p d4 rec4 :
    first_record d1 = inr rec1 -> truthy rec1 = true ->
    first_record d2 = inr rec2 -> truthy rec2 = true ->
    first_record d4 = inr rec4 ->
    ActivationLog
      [versionLookup (inr d1); definitionLookup (inr d2);
       activationPatch (opt_prop rec2 "Id") (opt_prop rec1 "VersionNumber") (inr p);
       verificationLookup (opt_prop rec2 "Id") (inr d4)]
      (if strict_eq (opt_prop rec4 "ActiveVersionId") (opt_prop rec1 "Id")
       then Activated (opt_prop rec1 "VersionNumber")
       else VerificationFailed (opt_prop rec1 "VersionNumber")).

End Steps.

(** A query response that returns a record: [records] is an array whose
    first element is an object. *)
Definition returns_record (data rec : JsVal) : Prop :=
  exists fields rest,
    rec = JObj fields /\ get_prop data "records" = inr (JArr (rec :: rest)).

(** A lookup finds [rec]: the first element of the response's [records],
    read the way the script reads it, is [rec], and it is truthy (as every
    record object is). *)
Definition finds (data rec : JsVal) : Prop :=
  first_record data = inr rec /\ truthy rec = true.

(** A query response that returns no record: [records] is empty or absent. *)
Definition returns_no_record (data : JsVal) : Prop :=
  get_prop data "records" = inr (JArr []) \/ get_prop data "records" = inr JUndefined.


(** The query string of a logged GET request. *)
Definition query_of (ev : Event) : option string :=
  match ev with
  | EGet _ _ q _ => Some q
  | _ => None
  end.

Fixpoint queries_of (log : Log) : list string :=
  match log with
  | [] => []
  | ev :: rest =>
      match query_of ev with
      | Some q => q :: queries_of rest
      | None => queries_of rest
      end
  end.

(** ** The activation loop, as it appears in the log *)

Definition orgHeader (orgAlias : JsVal) : Event :=
  ELog ("🚀 Activating flows in org: " ++ toStr orgAlias).

Definition displayCommand (orgAlias : JsVal) : string :=
  "sfdx force:org:display -u " ++ toStr orgAlias ++ " --json".

Definition listCommand : string := "sfdx force:org:list --json".

(** One activation attempt: its HTTP requests, then its status line. *)
Record Attempt : Type := mkAttempt {
  at_flow : string;
  at_requests : list Event;
  at_outcome : Outcome
}.

Definition attempt_log (a : Attempt) : list Event :=
  (at_requests a ++ [status_line (at_flow a) (at_outcome a)])%list.

(** One org's turn: the header line, the credential command with its
    output, then the attempts. *)
Record OrgVisit : Type := mkOrgVisit {
  ov_org : JsVal;
  ov_output : string;
  ov_attempts : list Attempt
}.

Definition visit_log (v : OrgVisit) : list Event :=
  (orgHeader (ov_org v)
     :: EExec (displayCommand (ov_org v)) (inr (ov_output v))
     :: concat (map attempt_log (ov_attempts v)))%list.

Definition is_exec (ev : Event) : bool :=
  match ev with EExec _ _ => true | _ => false end.

Definition is_org_prompt (ev : Event) : bool :=
  match ev with EPromptOrgs _ _ => true | _ => false end.

Section Credentials.

Variable env : Env.

(** The credential the org-display output [r] holds. *)
Inductive CredentialRead (r : Exn + string) : JsVal -> JsVal -> Prop :=
| credential_read out parsed res accessToken instanceUrl :
    r = inr out ->
    JSON_parse env out = inr parsed ->
    get_prop parsed "result" = inr res ->
    get_prop res "accessToken" = inr accessToken ->
    get_prop res "instanceUrl" = inr instanceUrl ->
    CredentialRead r accessToken instanceUrl.

(** The ways the org-display step fails: the command fails, its output is
    not JSON, or the document has no [result] to read from. *)
Inductive CredentialFailure (r : Exn + string) : Exn -> Prop :=
| display_command_failed e :
    r = inl e -> CredentialFailure r e
| display_output_unparsable out e :
    r = inr out -> JSON_parse env out = inl e -> CredentialFailure r e
| display_document_null out parsed e :
    r = inr out -> JSON_parse env out = inr parsed ->
    get_prop parsed "result" = inl e -> CredentialFailure r e
| display_result_missing out parsed res e :
    r = inr out -> JSON_parse env out = inr parsed ->
    get_prop parsed "result" = inr res ->
    get_prop res "accessToken" = inl e -> CredentialFailure r e.

(** The ways the org-listing step fails. *)
Inductive ListingFailure (r : Exn + string) : Exn -> Prop :=
| list_command_failed e :
    r = inl e -> ListingFailure r e
| list_output_unparsable out e :
    r = inr out -> JSON_parse env out = inl e -> ListingFailure r e
| list_document_null out parsed e :
    r = inr out -> JSON_parse env out = inr parsed ->
    get_prop parsed "result" = inl e -> ListingFailure r e
| list_result_missing out parsed res e :
    r = inr out -> JSON_parse env out = inr parsed ->
    get_prop parsed "result" = inr res ->
    get_prop res "nonScratchOrgs" = inl e -> ListingFailure r e
| list_orgs_unreadable out parsed res field e :
    r = inr out -> JSON_parse env out = inr parsed ->
    get_prop parsed "result" = inr res ->
    get_prop res "nonScratchOrgs" = inr field ->
    array_filter_connected (if strict_eq field JUndefined then JArr [] else field)
      = inl e ->
    ListingFailure r e.

(** The org listing that the listing output [r] holds. *)
Definition ListingRead (r : Exn + string) (orgs : list JsVal) : Prop :=
  exists out parsed res,
    r = inr out /\ JSON_parse env out = inr parsed /\
    get_prop parsed "result" = inr res /\
    get_prop res "nonScratchOrgs" = inr (JArr orgs).

End Credentials.

(** An org record's connection status is ["Connected"]. *)
Definition is_connected (org : JsVal) : bool :=
  strict_eq (opt_prop org "connectedStatus") (JStr "Connected").

Definition is_record (v : JsVal) : Prop := exists fields, v = JObj fields.

Definition choice_of (org : JsVal) : Choice :=
  mkChoice (opt_prop org "alias") (opt_prop org "alias").

(** ** String vocabulary for the claims on names and queries *)

(** Names joined by semicolons, as the operator types them. *)
Fixpoint join_semi (names : list string) : string :=
  match names with
  | [] => EmptyString
  | [n] => n
  | n :: rest => n ++ String semicolon (join_semi rest)
  end.

Fixpoint count_char (c : ascii) (s : string) : nat :=
  match s with
  | EmptyString => 0
  | String x rest => (if Ascii.eqb x c then 1 else 0) + count_char c rest
  end.

(** [s] starts with a white-space character. *)
Definition starts_with_space (s : string) : bool :=
  match strip_space s with
  | Some _ => true
  | None => false
  end.

(** [s] ends with a white-space character: some non-empty end of it
    consists of white space only. *)
Fixpoint ends_with_space (s : string) : bool :=
  match s with
  | EmptyString => false
  | String _ rest => (all_space s || ends_with_space rest)%bool
  end.

(** No white space at either end. *)
Definition trimmed (s : string) : Prop :=
  starts_with_space s = false /\ ends_with_space s = false.

(** The string of the given bytes. *)
Definition bytes (l : list nat) : string :=
  fold_right (fun n s => String (ascii_of_nat n) s) EmptyString l.

(** The characters of [s] before its first [c]. *)
Fixpoint up_to (c : ascii) (s : string) : string :=
  match s with
  | EmptyString => EmptyString
  | String x rest => if Ascii.eqb x c then EmptyString else String x (up_to c rest)
  end.

(** The characters of [s] after its first [c]. *)
Fixpoint after (c : ascii) (s : string) : string :=
  match s with
  | EmptyString => EmptyString
  | String x rest => if Ascii.eqb x c then rest else after c rest
  end.

(** What a reader of the query takes for the literal: the text between the
    first quote and the next one. *)
Definition quoted_literal (q : string) : string := up_to quote (after quote q).

(** [needle] occurs in [hay]. *)
Fixpoint occurs_in (needle hay : string) : bool :=
  (String.prefix needle hay
   || match hay with
      | EmptyString => false
      | String _ rest => occurs_in needle rest
      end)%bool.

(** ** The shape of a run of the loop *)

(** [attempts] are activations of [flows], one each and in that order, made
    with one credential. *)
Definition attempts_of (tok url : JsVal) (flows : list string)
    (attempts : list Attempt) : Prop :=
  map at_flow attempts = flows /\
  Forall (fun a => ActivationLog (at_flow a) tok url (at_requests a) (at_outcome a))
         attempts.

(** [visits] are turns of [orgs], one each and in that order; every turn
    reads its credential from its command's output and attempts every flow
    with it. *)
Definition visits_of (env : Env) (orgs : list JsVal) (flows : list string)
    (visits : list OrgVisit) : Prop :=
  map ov_org visits = orgs /\
  Forall (fun v => exists tok url,
            CredentialRead env (inr (ov_output v)) tok url /\
            attempts_of tok url flows (ov_attempts v))
         visits.

Definition all_attempts (visits : list OrgVisit) : list Attempt :=
  concat (map ov_attempts visits).

Definition sourceLine : string :=
  "Source: https://github.com/anushpoudel/flow-activator-js.git" ++ newline.

(** [main] up to and including its first prompt. *)
Definition prologue (env : Env) : M (option (list string)) :=
  displayAsciiArt env "Flow Activator" ;;;
  console_log sourceLine ;;;
  prompts_flowQuestion env.

(** [main] gets to its loop: the operator gave flow names, the listing
    succeeded, and the operator picked orgs and confirmed.  The last
    argument is the log at the start of the loop. *)
Inductive ReachesLoop (env : Env) (tr : Log)
  : list JsVal -> list string -> Log -> Prop :=
| reaches_loop flowNames log1 out orgs choices answers selected :
    prologue env tr = (Val (Some flowNames), log1) ->
    getAuthenticatedOrgs env log1
      = (Val orgs, (log1 ++ [EExec listCommand (inr out)])%list) ->
    org_choices orgs = inr choices ->
    operator_orgs env (log1 ++ [EExec listCommand (inr out)])%list choices = answers ->
    confirmation answers = Some true ->
    selectedOrgs answers = Some selected ->
    ReachesLoop env tr selected flowNames
      (log1 ++ [EExec listCommand (inr out); EPromptOrgs choices answers])%list.

(** ** Sample environments *)

(** Two connected orgs and a stale one.  Org1 holds FlowA; Org2 holds FlowA
    and FlowB.  Every flow has a latest version 3 that is not yet active.
    The server activates a version when it is patched, and answers 401 to a
    request that does not carry the org's token. *)
Module Sample.

Definition org1_url : string := "https://org1.my.salesforce.com".
Definition org2_url : string := "https://org2.my.salesforce.com".
Definition org1_token : string := "00D1!AQEAQ".
Definition org2_token : string := "00D2!AQEAQ".

Definition org_record (alias status : string) : JsVal :=
  JObj [("alias", JStr alias); ("connectedStatus", JStr status)].

Definition listed_orgs : list JsVal :=
  [org_record "Org1" "Connected";
   org_record "Stale" "RefreshTokenAuthError";
   org_record "Org2" "Connected"].

Definition credential (token url : string) : JsVal :=
  JObj [("status", JNum 0);
        ("result", JObj [("accessToken", JStr token); ("instanceUrl", JStr url)])].

(** The command outputs are named rather than spelled out; [JSON_parse]
    is the table of their parses. *)
Definition commands (command : string) : Exn + string :=
  if String.eqb command listCommand then inr "<org list>"
  else if String.eqb command (displayCommand (JStr "Org1")) then inr "<Org1 display>"
  else if String.eqb command (displayCommand (JStr "Org2")) then inr "<Org2 display>"
  else inl (mkExn ("Command failed: " ++ command)).

Definition parse (text : string) : Exn + JsVal :=
  if String.eqb text "<org list>" then
    inr (JObj [("status", JNum 0);
               ("result", JObj [("nonScratchOrgs", JArr listed_orgs);
                                ("scratchOrgs", JArr [])])])
  else if String.eqb text "<Org1 display>" then inr (credential org1_token org1_url)
  else if String.eqb text "<Org2 display>" then inr (credential org2_token org2_url)
  else inl (mkExn "Unexpected token < in JSON at position 0").

Definition flows_of (instanceUrl : string) : list string :=
  if String.eqb instanceUrl org1_url then ["FlowA"]
  else if String.eqb instanceUrl org2_url then ["FlowA"; "FlowB"]
  else [].

Definition token_of (instanceUrl : string) : string :=
  if String.eqb instanceUrl org1_url then org1_token else org2_token.

(** Record ids are opaque: they do not spell the flow's name. *)
Definition serial (flow : string) : string :=
  if String.eqb flow "FlowA" then "AAA" else "AAB".

Definition version_id (flow : string) : JsVal :=
  JStr ("301xx000000003" ++ serial flow).
Definition previous_version_id (flow : string) : JsVal :=
  JStr ("301xx000000002" ++ serial flow).
Definition definition_id (flow : string) : JsVal :=
  JStr ("300xx000000001" ++ serial flow).

Definition records (rs : list JsVal) : JsVal :=
  JObj [("size", JNum (Z.of_nat (length rs))); ("records", JArr rs)].

Definition patched (tr : Log) (url : string) : bool :=
  existsb (fun ev => match ev with
                     | EPatch u _ _ (inr _) => String.eqb u url
                     | _ => false
                     end) tr.

Definition answer_query (instanceUrl : string) (tr : Log) (q : string) : JsVal :=
  let flows := flows_of instanceUrl in
  match find (fun fl => String.eqb q (toolingQuery fl)) flows with
  | Some fl => records [JObj [("Id", version_id fl); ("VersionNumber", JNum 3)]]
  | None =>
  match find (fun fl => String.eqb q (definitionQuery fl)) flows with
  | Some fl => records [JObj [("Id", definition_id fl)]]
  | None =>
  match find (fun fl => String.eqb q (verificationQuery (definition_id fl))) flows with
  | Some fl =>
      records [JObj [("ActiveVersionId",
                      if patched tr (definitionUrl (JStr instanceUrl) (definition_id fl))
                      then version_id fl else previous_version_id fl)]]
  | None => records []
  end end end.

Definition unauthorized : Exn := mkExn "Request failed with status code 401".
Definition not_found : Exn := mkExn "Request failed with status code 404".
Definition network_error : Exn := mkExn "Network Error".

Definition get (tr : Log) (url : string) (headers : Headers) (q : string)
  : Exn + JsVal :=
  match find (fun u => String.eqb url (queryUrl (JStr u))) [org1_url; org2_url] with
  | Some u =>
      if String.eqb (Authorization headers) ("Bearer " ++ token_of u)
      then inr (answer_query u tr q)
      else inl unauthorized
  | None => inl network_error
  end.

Definition patch (tr : Log) (url : string) (body : JsVal) (headers : Headers)
  : Exn + JsVal :=
  match find (fun u =>
                existsb (fun fl =>
                           String.eqb url (definitionUrl (JStr u) (definition_id fl)))
                        (flows_of u))
             [org1_url; org2_url] with
  | Some u =>
      if String.eqb (Authorization headers) ("Bearer " ++ token_of u)
      then inr (JStr EmptyString)
      else inl unauthorized
  | None => inl not_found
  end.

(** The operator first submits nothing, then two names; selects every
    listed choice and confirms. *)
Definition env : Env :=
  {| figlet_textSync := fun _ _ => inr "Flow Activator";
     execSync := fun _ command => commands command;
     JSON_parse := parse;
     axios_get := get;
     axios_patch := patch;
     operator_flows := fun _ => [EmptyString; "FlowA;FlowB"];
     operator_orgs := fun _ choices =>
       mkOrgAnswers (Some (map value choices)) (Some true) |}.

(** The same, with a network that drops every verification query. *)
Definition env_verification_down : Env :=
  {| figlet_textSync := figlet_textSync env;
     execSync := execSync env;
     JSON_parse := JSON_parse env;
     axios_get := fun tr url headers q =>
       if String.prefix "SELECT ActiveVersionId" q then inl network_error
       else get tr url headers q;
     axios_patch := axios_patch env;
     operator_flows := operator_flows env;
     operator_orgs := operator_orgs env |}.

(** The same, with flow versions whose definition records are gone. *)
Definition env_definition_missing : Env :=
  {| figlet_textSync := figlet_textSync env;
     execSync := execSync env;
     JSON_parse := JSON_parse env;
     axios_get := fun tr url headers q =>
       if String.prefix "SELECT Id FROM FlowDefinition" q then inr (records [])
       else get tr url headers q;
     axios_patch := axios_patch env;
     operator_flows := operator_flows env;
     operator_orgs := operator_orgs env |}.

(** The same, with a server whose version records carry no [Id] and whose
    verification query returns nothing. *)
Definition env_idless : Env :=
  {| figlet_textSync := figlet_textSync env;
     execSync := execSync env;
     JSON_parse := JSON_parse env;
     axios_get := fun tr url headers q =>
       if String.prefix "SELECT Id, VersionNumber" q
       then inr (records [JObj [("VersionNumber", JNum 3)]])
       else if String.prefix "SELECT ActiveVersionId" q then inr (records [])
       else get tr url headers q;
     axios_patch := axios_patch env;
     operator_flows := operator_flows env;
     operator_orgs := operator_orgs env |}.

(** The same, with Org2 no longer authenticated: its display command
    fails. *)
Definition env_org2_logged_out : Env :=
  {| figlet_textSync := figlet_textSync env;
     execSync := fun _ command =>
       if String.eqb command (displayCommand (JStr "Org2"))
       then inl (mkExn "Command failed: No authorization information found for Org2")
       else commands command;
     JSON_parse := JSON_parse env;
     axios_get := axios_get env;
     axios_patch := axios_patch env;
     operator_flows := operator_flows env;
     operator_orgs := operator_orgs env |}.

(** The same, with the [sfdx] command line not installed. *)
Definition env_no_cli : Env :=
  {| figlet_textSync := figlet_textSync env;
     execSync := fun _ _ => inl (mkExn "Command failed: sfdx: command not found");
     JSON_parse := JSON_parse env;
     axios_get := axios_get env;
     axios_patch := axios_patch env;
     operator_flows := operator_flows env;
     operator_orgs := operator_orgs env |}.

End Sample.

(** ** More vocabulary for reading the log *)

(** The headers and the address of a logged HTTP request. *)
Definition headers_of (ev : Event) : option Headers :=
  match ev with
  | EGet _ h _ _ | EPatch _ _ h _ => Some h
  | _ => None
  end.

Definition url_of (ev : Event) : option string :=
  match ev with
  | EGet u _ _ _ | EPatch u _ _ _ => Some u
  | _ => None
  end.

(** The root of the tooling API of an instance. *)
Definition toolingRoot (instanceUrl : JsVal) : string :=
  toStr instanceUrl ++ "/services/data/v59.0/tooling/".

(** The line the banner step prints for what [figlet.textSync] answered. *)
Definition bannerLine (r : Exn + string) : Event :=
  match r with
  | inr asciiArt => ELog asciiArt
  | inl error => EError ("Error generating ASCII art: " ++ message error)
  end.

Definition cancelledLine : Event := ELog "Operation cancelled.".

(** A value on which a property can be read: neither [null] nor
    [undefined]. *)
Definition readable (v : JsVal) : Prop := v <> JNull /\ v <> JUndefined.

(** ** More sample environments *)

Module Sample2.

(** The operator submits nothing, twice, and leaves. *)
Definition env_cancelled : Env :=
  {| figlet_textSync := figlet_textSync Sample.env;
     execSync := execSync Sample.env;
     JSON_parse := JSON_parse Sample.env;
     axios_get := axios_get Sample.env;
     axios_patch := axios_patch Sample.env;
     operator_flows := fun _ => [EmptyString; EmptyString];
     operator_orgs := operator_orgs Sample.env |}.

(** The operator selects every org, then answers no to the confirmation. *)
Definition env_declined : Env :=
  {| figlet_textSync := figlet_textSync Sample.env;
     execSync := execSync Sample.env;
     JSON_parse := JSON_parse Sample.env;
     axios_get := axios_get Sample.env;
     axios_patch := axios_patch Sample.env;
     operator_flows := operator_flows Sample.env;
     operator_orgs := fun _ choices =>
       mkOrgAnswers (Some (map value choices)) (Some false) |}.

(** A gateway that answers every query with a plain-text body. *)
Definition env_plain_body : Env :=
  {| figlet_textSync := figlet_textSync Sample.env;
     execSync := execSync Sample.env;
     JSON_parse := JSON_parse Sample.env;
     axios_get := fun _ _ _ _ => inr (JStr "Service Unavailable");
     axios_patch := axios_patch Sample.env;
     operator_flows := operator_flows Sample.env;
     operator_orgs := operator_orgs Sample.env |}.


(** A command line whose display output has a [result] without
    [accessToken], and whose listing has a [result] without
    [nonScratchOrgs]. *)
Definition parse_partial (text : string) : Exn + JsVal :=
  if String.eqb text "<org list>" then
    inr (JObj [("status", JNum 0); ("result", JObj [("scratchOrgs", JArr [])])])
  else if String.eqb text "<Org1 display>" then
    inr (JObj [("status", JNum 0);
               ("result", JObj [("instanceUrl", JStr Sample.org1_url)])])
  else Sample.parse text.

Definition env_partial_output : Env :=
  {| figlet_textSync := figlet_textSync Sample.env;
     execSync := execSync Sample.env;
     JSON_parse := parse_partial;
     axios_get := axios_get Sample.env;
     axios_patch := axios_patch Sample.env;
     operator_flows := operator_flows Sample.env;
     operator_orgs := operator_orgs Sample.env |}.

End Sample2.

(** ** The runs of the whole script *)

(** How a run of the script from log [tr] can end, by the point it gets
    to: the operator leaves the flow-name prompt; the org listing fails; the
    operator does not confirm; the prompt confirms without a selection; or
    the loop over the selected orgs runs. *)
Inductive ProgramRun (env : Env) (tr : Log) : Res unit * Log -> Prop :=
| run_cancelled log1 :
    prologue env tr = (Val None, log1) ->
    ProgramRun env tr (Val tt, (log1 ++ [cancelledLine])%list)
| run_listing_failed flowNames log1 r e :
    prologue env tr = (Val (Some flowNames), log1) ->
    r = execSync env log1 listCommand ->
    ListingFailure env r e ->
    ProgramRun env tr
      (Exit 1, (log1 ++ [EExec listCommand r;
                         EError ("Error retrieving orgs: " ++ message e)])%list)
| run_not_confirmed flowNames log1 out orgs answers :
    prologue env tr = (Val (Some flowNames), log1) ->
    getAuthenticatedOrgs env log1
      = (Val orgs, (log1 ++ [EExec listCommand (inr out)])%list) ->
    answers = operator_orgs env (log1 ++ [EExec listCommand (inr out)])%list
                (map choice_of orgs) ->
    confirmation answers <> Some true ->
    ProgramRun env tr
      (Val tt, (log1 ++ [EExec listCommand (inr out);
                         EPromptOrgs (map choice_of orgs) answers;
                         cancelledLine])%list)
| run_without_selection flowNames log1 out orgs answers :
    prologue env tr = (Val (Some flowNames), log1) ->
    getAuthenticatedOrgs env log1
      = (Val orgs, (log1 ++ [EExec listCommand (inr out)])%list) ->
    answers = operator_orgs env (log1 ++ [EExec listCommand (inr out)])%list
                (map choice_of orgs) ->
    confirmation answers = Some true ->
    selectedOrgs answers = None ->
    ProgramRun env tr
      (Val tt, (log1 ++ [EExec listCommand (inr out);
                         EPromptOrgs (map choice_of orgs) answers;
                         EError "Error: orgAnswers.selectedOrgs is not iterable"])%list)
| run_loop selected flowNames log2 :
    ReachesLoop env tr selected flowNames log2 ->
    ProgramRun env tr (activationLoop env selected flowNames log2).

(** * Properties *)

(** ** The definitions on sample values *)

Example truthy_values :
  map truthy [JUndefined; JNull; JBool false; JNum 0; JStr EmptyString; JStr "0"; JArr []; JObj []]
  = [false; false; false; false; false; true; true; true].
Proof. reflexivity. Qed.

Example toStr_values :
  map toStr [JUndefined; JNull; JBool true; JNum 59; JNum (-3); JStr "Org1";
             JArr [JNum 1; JNull; JArr [JStr "a"; JStr "b"]]; JObj [("Id", JStr "x")]]
  = ["undefined"; "null"; "true"; "59"; "-3"; "Org1"; "1,,a,b"; "[object Object]"].
Proof. reflexivity. Qed.

Example first_record_values :
  first_record (JObj [("records", JArr [JNum 7; JNum 8])]) = inr (JNum 7)
  /\ first_record (JObj [("records", JArr [])]) = inr JUndefined
  /\ first_record (JObj [("totalSize", JNum 0)]) = inr JUndefined
  /\ first_record (JStr "Service Unavailable") = inr JUndefined
  /\ first_record (JObj [("records", JStr "abc")]) = inr (JStr "a")
  /\ (exists e, first_record JNull = inl e)
  /\ (exists e, first_record (JObj [("records", JNum 5)]) = inl e).
Proof. repeat split; try reflexivity; eexists; reflexivity. Qed.

Example split_semi_values :
  split_semi "FlowA;FlowB" = ["FlowA"; "FlowB"]
  /\ split_semi EmptyString = [EmptyString]
  /\ split_semi ";" = [EmptyString; EmptyString]
  /\ split_semi "a;;b;" = ["a"; EmptyString; "b"; EmptyString].
Proof. repeat split; reflexivity. Qed.

Example trim_values :
  trim "  Flow A  " = "Flow A"
  /\ trim "FlowB" = "FlowB"
  /\ trim "   " = EmptyString
  /\ trim (String (ascii_of_nat 9) "x y" ++ newline) = "x y".
Proof. repeat split; reflexivity. Qed.

(** White space outside ASCII is trimmed as well: a no-break space (C2 A0),
    an ideographic space (E3 80 80), a byte-order mark (EF BB BF), the line
    and paragraph separators.  A zero-width space (E2 80 8B) is no white
    space and stays, as does any other character. *)
Example trim_unicode_values :
  trim (bytes [194; 160] ++ "FlowA" ++ bytes [194; 160]) = "FlowA"
  /\ trim (bytes [227; 128; 128] ++ "FlowB" ++ bytes [239; 187; 191]) = "FlowB"
  /\ trim (bytes [226; 128; 168; 226; 128; 169; 194; 160; 32]) = EmptyString
  /\ trim (bytes [226; 128; 139] ++ "x") = bytes [226; 128; 139] ++ "x"
  /\ trim (bytes [195; 169] ++ " ") = bytes [195; 169]
  /\ flowQuestion_format
       (bytes [194; 160] ++ "FlowA" ++ bytes [194; 160] ++ ";"
        ++ bytes [227; 128; 128] ++ "FlowB" ++ bytes [239; 187; 191])
     = ["FlowA"; "FlowB"]
  /\ flowQuestion_format ("FlowA;" ++ bytes [194; 160]) = ["FlowA"; EmptyString].
Proof. repeat split; reflexivity. Qed.

Example strict_eq_values :
  strict_eq (JStr "301") (JStr "301") = true
  /\ strict_eq (JStr "301") (JNum 301) = false
  /\ strict_eq JUndefined JUndefined = true
  /\ strict_eq JNull JUndefined = false
  /\ strict_eq (JArr []) (JArr []) = false.
Proof. repeat split; reflexivity. Qed.

(** ** Values and the log *)

Lemma truthy_get_prop (v : JsVal) (key : string) :
  truthy v = true -> get_prop v key = inr (opt_prop v key).
Proof.
  destruct v; simpl; try discriminate; reflexivity.
Qed.

Lemma returns_record_found (data rec : JsVal) :
  returns_record data rec -> first_record data = inr rec /\ truthy rec = true.
Proof.
  intros (fields & rest & -> & Hrec).
  unfold first_record. rewrite Hrec. simpl. split; reflexivity.
Qed.

Lemma returns_no_record_first (data : JsVal) :
  returns_no_record data -> first_record data = inr JUndefined.
Proof.
  unfold first_record. intros [H | H]; rewrite H; reflexivity.
Qed.

(** The status line tells the kind of outcome. *)
Lemma status_line_kind (f : string) (o o' : Outcome) :
  status_line f o = status_line f o' -> kind_of o = kind_of o'.
Proof.
  destruct o, o'; simpl; intros H; try reflexivity; discriminate H.
Qed.

Ltac norm_log := repeat rewrite <- app_assoc; cbn [app].

Ltac run_activation :=
  cbv beta iota zeta delta
    [activateLatestFlow try_catch bind http_get http_patch lift
     console_log console_error emit answer];
  unfold versionLookup, definitionLookup, activationPatch, verificationLookup in *.

Ltac answer_with H := norm_log; rewrite H; cbv beta iota zeta.

(** ** One activation, step by step *)

Section ActivationSteps.

Variable env : Env.
Variables (f : string) (tok url : JsVal) (tr : Log).

Local Notation activate := (activateLatestFlow env f tok url).
Local Notation get := (fun log q => axios_get env log (queryUrl url) (mkRequestHeaders tok) q).
Local Notation patch := (fun log id n =>
  axios_patch env log (definitionUrl url id) (activationMetadata n) (mkRequestHeaders tok)).
Local Notation step1 := (versionLookup f tok url).
Local Notation step2 := (definitionLookup f tok url).
Local Notation step3 := (activationPatch tok url).
Local Notation step4 := (verificationLookup tok url).

Lemma activate_version_error e :
  get tr (toolingQuery f) = inl e ->
  activate tr = (Val tt, (tr ++ [step1 (inl e); status_line f (RemoteError (message e))])%list).
Proof.
  intros H1. run_activation. answer_with H1. norm_log. reflexivity.
Qed.

Lemma activate_version_unreadable d1 e :
  get tr (toolingQuery f) = inr d1 ->
  first_record d1 = inl e ->
  activate tr = (Val tt, (tr ++ [step1 (inr d1); status_line f (RemoteError (message e))])%list).
Proof.
  intros H1 R1. run_activation. answer_with H1. rewrite R1.
  cbv beta iota zeta. norm_log. reflexivity.
Qed.

Lemma activate_flow_not_found d1 rec1 :
  get tr (toolingQuery f) = inr d1 ->
  first_record d1 = inr rec1 -> truthy rec1 = false ->
  activate tr = (Val tt, (tr ++ [step1 (inr d1); status_line f FlowNotFound])%list).
Proof.
  intros H1 R1 T1. run_activation. answer_with H1. rewrite R1.
  cbv beta iota zeta. rewrite T1. cbv beta iota zeta delta [negb].
  norm_log. reflexivity.
Qed.

Section VersionFound.

Variables (d1 rec1 : JsVal).
Hypothesis H1 : get tr (toolingQuery f) = inr d1.
Hypothesis R1 : first_record d1 = inr rec1.
Hypothesis T1 : truthy rec1 = true.

Local Notation n := (opt_prop rec1 "VersionNumber").
Local Notation log1 := (tr ++ [step1 (inr d1)])%list.

Ltac pass_step1 :=
  run_activation; answer_with H1; rewrite R1; cbv beta iota zeta;
  rewrite T1; cbv beta iota zeta delta [negb];
  rewrite !(truthy_get_prop rec1 _ T1); cbv beta iota zeta.

Lemma activate_definition_error e :
  get log1 (definitionQuery f) = inl e ->
  activate tr =
    (Val tt, (tr ++ [step1 (inr d1); step2 (inl e);
                     status_line f (RemoteError (message e))])%list).
Proof.
  intros H2. pass_step1. answer_with H2. norm_log. reflexivity.
Qed.

Lemma activate_definition_unreadable d2 e :
  get log1 (definitionQuery f) = inr d2 ->
  first_record d2 = inl e ->
  activate tr =
    (Val tt, (tr ++ [step1 (inr d1); step2 (inr d2);
                     status_line f (RemoteError (message e))])%list).
Proof.
  intros H2 R2. pass_step1. answer_with H2. rewrite R2.
  cbv beta iota zeta. norm_log. reflexivity.
Qed.

Lemma activate_definition_not_found d2 rec2 :
  get log1 (definitionQuery f) = inr d2 ->
  first_record d2 = inr rec2 -> truthy rec2 = false ->
  activate tr =
    (Val tt, (tr ++ [step1 (inr d1); step2 (inr d2);
                     status_line f DefinitionNotFound])%list).
Proof.
  intros H2 R2 T2. pass_step1. answer_with H2. rewrite R2.
  cbv beta iota zeta. rewrite T2. cbv beta iota zeta delta [negb].
  norm_log. reflexivity.
Qed.

Section DefinitionFound.

Variables (d2 rec2 : JsVal).
Hypothesis H2 : get log1 (definitionQuery f) = inr d2.
Hypothesis R2 : first_record d2 = inr rec2.
Hypothesis T2 : truthy rec2 = true.

Local Notation defId := (opt_prop rec2 "Id").
Local Notation log2 := (tr ++ [step1 (inr d1); step2 (inr d2)])%list.

Ltac pass_step2 :=
  pass_step1; answer_with H2; rewrite R2; cbv beta iota zeta;
  rewrite T2; cbv beta iota zeta delta [negb];
  rewrite !(truthy_get_prop rec2 _ T2); cbv beta iota zeta.

Lemma activate_patch_error e :
  patch log2 defId n = inl e ->
  activate tr =
    (Val tt, (tr ++ [step1 (inr d1); step2 (inr d2); step3 defId n (inl e);
                     status_line f (RemoteError (message e))])%list).
Proof.
  intros H3. pass_step2. answer_with H3. norm_log. reflexivity.
Qed.

Section Patched.

Variable p : JsVal.
Hypothesis H3 : patch log2 defId n = inr p.

Local Notation log3 :=
  (tr ++ [step1 (inr d1); step2 (inr d2); step3 defId n (inr p)])%list.

Ltac pass_step3 := pass_step2; answer_with H3.

Lemma activate_verification_error e :
  get log3 (verificationQuery defId) = inl e ->
  activate tr =
    (Val tt, (tr ++ [step1 (inr d1); step2 (inr d2); step3 defId n (inr p);
                     step4 defId (inl e);
                     status_line f (RemoteError (message e))])%list).
Proof.
  intros H4. pass_step3. answer_with H4. norm_log. reflexivity.
Qed.

Lemma activate_verification_unreadable d4 e :
  get log3 (verificationQuery defId) = inr d4 ->
  first_record d4 = inl e ->
  activate tr =
    (Val tt, (tr ++ [step1 (inr d1); step2 (inr d2); step3 defId n (inr p);
                     step4 defId (inr d4);
                     status_line f (RemoteError (message e))])%list).
Proof.
  intros H4 R4. pass_step3. answer_with H4. rewrite R4.
  cbv beta iota zeta. norm_log. reflexivity.
Qed.

Lemma activate_verified d4 rec4 :
  get log3 (verificationQuery defId) = inr d4 ->
  first_record d4 = inr rec4 ->
  activate tr =
    (Val tt,
     (tr ++ [step1 (inr d1); step2 (inr d2); step3 defId n (inr p);
             step4 defId (inr d4);
             status_line f
               (if strict_eq (opt_prop rec4 "ActiveVersionId") (opt_prop rec1 "Id")
                then Activated n else VerificationFailed n)])%list).
Proof.
  intros H4 R4. pass_step3. answer_with H4. rewrite R4.
  cbv beta iota zeta.
  destruct (strict_eq _ _); cbv beta iota zeta; norm_log; reflexivity.
Qed.

End Patched.
End DefinitionFound.
End VersionFound.

End ActivationSteps.

(** ** One activation, in general *)

(** Whatever the environment answers, an activation returns normally after
    one of the request sequences of [ActivationLog] and exactly one status
    line. *)
Lemma activateLatestFlow_log (env : Env) (f : string) (tok url : JsVal) (tr : Log) :
  exists reqs o,
    activateLatestFlow env f tok url tr
      = (Val tt, (tr ++ reqs ++ [status_line f o])%list)
    /\ ActivationLog f tok url reqs o.
Proof.
  destruct (axios_get env tr (queryUrl url) (mkRequestHeaders tok) (toolingQuery f))
    as [e | d1] eqn:H1.
  { eexists _, _. split; [ | exact (AL_version_error f tok url e) ].
    apply activate_version_error, H1. }
  destruct (first_record d1) as [e | rec1] eqn:R1.
  { eexists _, _. split; [ | exact (AL_version_unreadable f tok url d1 e R1) ].
    eapply activate_version_unreadable; eassumption. }
  destruct (truthy rec1) eqn:T1.
  2:{ eexists _, _. split; [ | exact (AL_flow_not_found f tok url d1 rec1 R1 T1) ].
      eapply activate_flow_not_found; eassumption. }
  destruct (axios_get env (tr ++ [versionLookup f tok url (inr d1)])%list
              (queryUrl url) (mkRequestHeaders tok) (definitionQuery f))
    as [e | d2] eqn:H2.
  { eexists _, _. split; [ | exact (AL_definition_error f tok url d1 rec1 e R1 T1) ].
    eapply activate_definition_error; eassumption. }
  destruct (first_record d2) as [e | rec2] eqn:R2.
  { eexists _, _.
    split; [ | exact (AL_definition_unreadable f tok url d1 rec1 d2 e R1 T1 R2) ].
    eapply activate_definition_unreadable; eassumption. }
  destruct (truthy rec2) eqn:T2.
  2:{ eexists _, _.
      split; [ | exact (AL_definition_not_found f tok url d1 rec1 d2 rec2 R1 T1 R2 T2) ].
      eapply activate_definition_not_found; eassumption. }
  destruct (axios_patch env
              (tr ++ [versionLookup f tok url (inr d1); definitionLookup f tok url (inr d2)])%list
              (definitionUrl url (opt_prop rec2 "Id"))
              (activationMetadata (opt_prop rec1 "VersionNumber"))
              (mkRequestHeaders tok))
    as [e | p] eqn:H3.
  { eexists _, _.
    split; [ | exact (AL_patch_error f tok url d1 rec1 d2 rec2 e R1 T1 R2 T2) ].
    eapply activate_patch_error; eassumption. }
  destruct (axios_get env
              (tr ++ [versionLookup f tok url (inr d1); definitionLookup f tok url (inr d2);
                      activationPatch tok url (opt_prop rec2 "Id")
                        (opt_prop rec1 "VersionNumber") (inr p)])%list
              (queryUrl url) (mkRequestHeaders tok)
              (verificationQuery (opt_prop rec2 "Id")))
    as [e | d4] eqn:H4.
  { eexists _, _.
    split; [ | exact (AL_verification_error f tok url d1 rec1 d2 rec2 p e R1 T1 R2 T2) ].
    eapply activate_verification_error; eassumption. }
  destruct (first_record d4) as [e | rec4] eqn:R4.
  { eexists _, _.
    split; [ | exact (AL_verification_unreadable f tok url d1 rec1 d2 rec2 p d4 e
                        R1 T1 R2 T2 R4) ].
    eapply activate_verification_unreadable; eassumption. }
  eexists _, _.
  split; [ | exact (AL_verified f tok url d1 rec1 d2 rec2 p d4 rec4 R1 T1 R2 T2 R4) ].
  eapply activate_verified; eassumption.
Qed.

(** The requests of an activation are HTTP requests: no console line, no
    command, no prompt. *)
Lemma ActivationLog_requests (f : string) (tok url : JsVal) reqs o :
  ActivationLog f tok url reqs o -> forallb is_request reqs = true.
Proof.
  intros H; destruct H; reflexivity.
Qed.

Lemma ActivationLog_length (f : string) (tok url : JsVal) reqs o :
  ActivationLog f tok url reqs o -> 1 <= length reqs <= 4.
Proof.
  intros H; destruct H; simpl; lia.
Qed.

(** ** Loops *)

Lemma for_of_app {A} (env_body : A -> M unit) (xs ys : list A) (tr : Log) :
  for_of (xs ++ ys) env_body tr =
    match for_of xs env_body tr with
    | (Val _, tr') => for_of ys env_body tr'
    | r => r
    end.
Proof.
  revert tr. induction xs as [| x xs IH]; intros tr; simpl.
  - reflexivity.
  - unfold bind. destruct (env_body x tr) as [[[] | e | c] tr']; auto.
Qed.

(** The inner loop: one attempt per flow name, in the order of the list. *)
Lemma flows_loop_log (env : Env) (tok url : JsVal) (flows : list string) (tr : Log) :
  exists attempts,
    for_of flows (fun flowApiName => activateLatestFlow env flowApiName tok url) tr
      = (Val tt, (tr ++ concat (map attempt_log attempts))%list)
    /\ attempts_of tok url flows attempts.
Proof.
  revert tr. induction flows as [| f flows IH]; intros tr.
  - exists []. simpl. rewrite app_nil_r. repeat split; constructor.
  - destruct (activateLatestFlow_log env f tok url tr) as (reqs & o & Hrun & Hlog).
    destruct (IH (tr ++ reqs ++ [status_line f o])%list) as (rest & Hrest & Hflows & Hall).
    exists (mkAttempt f reqs o :: rest).
    split; [ | split ].
    + simpl. unfold bind. rewrite Hrun. rewrite Hrest.
      unfold attempt_log at 2. simpl. rewrite <- !app_assoc. reflexivity.
    + simpl. congruence.
    + constructor; assumption.
Qed.

(** ** Credentials and the org listing *)

Ltac run_command :=
  cbv beta iota zeta delta
    [getSfInstance getAuthenticatedOrgs try_catch bind ret exec lift
     console_error emit answer process_exit].

Lemma getSfInstance_ok (env : Env) (orgAlias : JsVal) (tr : Log) out tok url :
  execSync env tr (displayCommand orgAlias) = inr out ->
  CredentialRead env (inr out) tok url ->
  getSfInstance env orgAlias tr
    = (Val (tok, url), (tr ++ [EExec (displayCommand orgAlias) (inr out)])%list).
Proof.
  intros Hexec Hread. inversion Hread as [out' parsed res a i Eout Hparse Hres Htok Hurl].
  injection Eout as <-.
  run_command. unfold displayCommand in Hexec. rewrite Hexec. cbv beta iota zeta.
  rewrite Hparse. cbv beta iota zeta. rewrite Hres. cbv beta iota zeta.
  rewrite Htok. cbv beta iota zeta. rewrite Hurl. reflexivity.
Qed.

Lemma getSfInstance_fails (env : Env) (orgAlias : JsVal) (tr : Log) r e :
  r = execSync env tr (displayCommand orgAlias) ->
  CredentialFailure env r e ->
  getSfInstance env orgAlias tr
    = (Exit 1, (tr ++ [EExec (displayCommand orgAlias) r;
                       EError ("Error retrieving org details: " ++ message e)])%list).
Proof.
  intros Hr Hfail. unfold displayCommand in *.
  run_command. rewrite <- Hr.
  destruct Hfail as [e Er | out e Er Hp | out parsed e Er Hp Hres
                     | out parsed res e Er Hp Hres Htok];
    rewrite Er; cbv beta iota zeta.
  - norm_log. reflexivity.
  - rewrite Hp. cbv beta iota zeta. norm_log. reflexivity.
  - rewrite Hp. cbv beta iota zeta. rewrite Hres. cbv beta iota zeta.
    norm_log. reflexivity.
  - rewrite Hp. cbv beta iota zeta. rewrite Hres. cbv beta iota zeta.
    rewrite Htok. cbv beta iota zeta. norm_log. reflexivity.
Qed.

(** Reading a credential either succeeds or fails in one of the listed
    ways. *)
Lemma credential_read_or_failure (env : Env) (r : Exn + string) :
  (exists tok url, CredentialRead env r tok url) \/ (exists e, CredentialFailure env r e).
Proof.
  destruct r as [e | out].
  { right. exists e. now apply display_command_failed. }
  destruct (JSON_parse env out) as [e | parsed] eqn:Hp.
  { right. exists e. eapply display_output_unparsable; eauto. }
  destruct (get_prop parsed "result") as [e | res] eqn:Hres.
  { right. exists e. eapply display_document_null; eauto. }
  destruct (get_prop res "accessToken") as [e | tok] eqn:Htok.
  { right. exists e. eapply display_result_missing; eauto. }
  destruct (get_prop res "instanceUrl") as [e | url] eqn:Hurl.
  { destruct res; simpl in Htok, Hurl; discriminate. }
  left. exists tok, url. econstructor; eauto.
Qed.

Lemma filter_connected_records (orgs : list JsVal) :
  Forall is_record orgs -> filter_connected orgs = inr (filter is_connected orgs).
Proof.
  intros H. induction H as [| org orgs Hrec _ IH]; simpl.
  - reflexivity.
  - destruct Hrec as [fields ->]. rewrite IH. unfold is_connected, opt_prop. simpl. reflexivity.
Qed.

Lemma org_choices_records (orgs : list JsVal) :
  Forall is_record orgs -> org_choices orgs = inr (map choice_of orgs).
Proof.
  intros H. induction H as [| org orgs Hrec _ IH]; simpl.
  - reflexivity.
  - destruct Hrec as [fields ->]. rewrite IH. reflexivity.
Qed.

Lemma getAuthenticatedOrgs_ok (env : Env) (tr : Log) out orgs :
  execSync env tr listCommand = inr out ->
  ListingRead env (inr out) orgs ->
  Forall is_record orgs ->
  getAuthenticatedOrgs env tr
    = (Val (filter is_connected orgs), (tr ++ [EExec listCommand (inr out)])%list).
Proof.
  intros Hexec (out' & parsed & res & Eout & Hp & Hres & Hfield) Hrec.
  injection Eout as <-.
  run_command. unfold listCommand in Hexec. rewrite Hexec. cbv beta iota zeta.
  rewrite Hp. cbv beta iota zeta. rewrite Hres. cbv beta iota zeta.
  rewrite Hfield. cbv beta iota zeta.
  cbv beta iota delta [strict_eq array_filter_connected].
  rewrite (filter_connected_records _ Hrec). reflexivity.
Qed.

Lemma getAuthenticatedOrgs_fails (env : Env) (tr : Log) r e :
  r = execSync env tr listCommand ->
  ListingFailure env r e ->
  getAuthenticatedOrgs env tr
    = (Exit 1, (tr ++ [EExec listCommand r;
                       EError ("Error retrieving orgs: " ++ message e)])%list).
Proof.
  intros Hr Hfail. unfold listCommand in *.
  run_command. rewrite <- Hr.
  destruct Hfail as [e Er | out e Er Hp | out parsed e Er Hp Hres
                     | out parsed res e Er Hp Hres Hfield
                     | out parsed res field e Er Hp Hres Hfield Hfilter];
    rewrite Er; cbv beta iota zeta.
  - norm_log. reflexivity.
  - rewrite Hp. cbv beta iota zeta. norm_log. reflexivity.
  - rewrite Hp. cbv beta iota zeta. rewrite Hres. cbv beta iota zeta.
    norm_log. reflexivity.
  - rewrite Hp. cbv beta iota zeta. rewrite Hres. cbv beta iota zeta.
    rewrite Hfield. cbv beta iota zeta. norm_log. reflexivity.
  - rewrite Hp. cbv beta iota zeta. rewrite Hres. cbv beta iota zeta.
    rewrite Hfield. cbv beta iota zeta. rewrite Hfilter. cbv beta iota zeta.
    norm_log. reflexivity.
Qed.

(** ** The loop over orgs and flows *)

Lemma activationLoop_cons (env : Env) (org : JsVal) (orgs : list JsVal)
    (flows : list string) (tr : Log) :
  activationLoop env (org :: orgs) flows tr =
    match getSfInstance env org (tr ++ [orgHeader org])%list with
    | (Val (tok, url), log1) =>
        match for_of flows (fun f => activateLatestFlow env f tok url) log1 with
        | (Val _, log2) => activationLoop env orgs flows log2
        | r => r
        end
    | (Throw e, log1) => (Throw e, log1)
    | (Exit c, log1) => (Exit c, log1)
    end.
Proof.
  unfold activationLoop. cbn [for_of].
  cbv beta iota delta [bind console_log emit orgHeader].
  destruct (getSfInstance env org _) as [[[tok url] | e | c] log1];
    cbv beta iota; reflexivity.
Qed.

Lemma visit_log_cons (v : OrgVisit) (vs : list OrgVisit) :
  concat (map visit_log (v :: vs)) = (visit_log v ++ concat (map visit_log vs))%list.
Proof. reflexivity. Qed.

(** Every run of the loop: turns for a prefix of the orgs, complete ones;
    then either the list is exhausted, or the next org's credential fails
    and the process exits with code 1 right after the error line. *)
Lemma activationLoop_log (env : Env) (orgs : list JsVal) (flows : list string) (tr : Log) :
  exists visits,
    (activationLoop env orgs flows tr
       = (Val tt, (tr ++ concat (map visit_log visits))%list)
     /\ visits_of env orgs flows visits)
    \/
    (exists pre org post r e,
        orgs = (pre ++ org :: post)%list
        /\ visits_of env pre flows visits
        /\ (exists log, r = execSync env log (displayCommand org))
        /\ CredentialFailure env r e
        /\ activationLoop env orgs flows tr
           = (Exit 1,
              (tr ++ concat (map visit_log visits)
                  ++ [orgHeader org; EExec (displayCommand org) r;
                      EError ("Error retrieving org details: " ++ message e)])%list)).
Proof.
  revert tr. induction orgs as [| org orgs IH]; intros tr.
  - exists []. left. simpl. rewrite app_nil_r. repeat split; constructor.
  - rewrite activationLoop_cons.
    set (log0 := (tr ++ [orgHeader org])%list).
    destruct (credential_read_or_failure env (execSync env log0 (displayCommand org)))
      as [(tok & url & Hread) | (e & Hfail)].
    + destruct (execSync env log0 (displayCommand org)) as [e0 | out] eqn:Hexec.
      { inversion Hread; discriminate. }
      rewrite (getSfInstance_ok env org log0 out tok url Hexec Hread).
      destruct (flows_loop_log env tok url flows
                  (log0 ++ [EExec (displayCommand org) (inr out)])%list)
        as (attempts & Hflows & Hatt).
      rewrite Hflows.
      destruct (IH ((log0 ++ [EExec (displayCommand org) (inr out)])
                      ++ concat (map attempt_log attempts))%list)
        as (visits & [(Hrun & Hmap & Hall)
                     | (pre & o & post & r & e & Horgs & (Hmap & Hall) & Hr & Hfail & Hrun)]).
      * exists (mkOrgVisit org out attempts :: visits). left. split.
        { rewrite Hrun. rewrite visit_log_cons. unfold visit_log at 2. simpl.
          subst log0. rewrite <- !app_assoc. reflexivity. }
        split.
        { simpl. congruence. }
        constructor; [ | assumption ].
        exists tok, url. simpl. split; assumption.
      * exists (mkOrgVisit org out attempts :: visits). right.
        exists (org :: pre), o, post, r, e.
        split; [ simpl; congruence | ].
        split.
        { split; [ simpl; congruence | ].
          constructor; [ | assumption ].
          exists tok, url. simpl. split; assumption. }
        split; [ assumption | ].
        split; [ assumption | ].
        rewrite Hrun. rewrite visit_log_cons. unfold visit_log at 2. simpl.
        subst log0. rewrite <- !app_assoc. reflexivity.
    + exists []. right. exists [], org, orgs, (execSync env log0 (displayCommand org)), e.
      split; [ reflexivity | ].
      split; [ split; constructor | ].
      split; [ exists log0; reflexivity | ].
      split; [ assumption | ].
      rewrite (getSfInstance_fails env org log0 _ e eq_refl Hfail).
      subst log0. simpl. rewrite <- !app_assoc. reflexivity.
Qed.

Lemma attempts_length tok url flows attempts :
  attempts_of tok url flows attempts -> length attempts = length flows.
Proof.
  intros [Hmap _]. rewrite <- Hmap. now rewrite length_map.
Qed.

(** Complete turns of [orgs] make [|orgs| * |flows|] attempts. *)
Lemma visits_attempts_length env orgs flows visits :
  visits_of env orgs flows visits ->
  length (all_attempts visits) = length orgs * length flows.
Proof.
  intros [Hmap Hall]. subst orgs. unfold all_attempts.
  induction Hall as [| v visits (tok & url & _ & Hatt) _ IH]; simpl.
  - reflexivity.
  - rewrite length_app, IH. now rewrite (attempts_length _ _ _ _ Hatt).
Qed.

(** ** [main] *)

Lemma bind_assoc {A B C} (m : M A) (k : A -> M B) (h : B -> M C) (tr : Log) :
  bind (bind m k) h tr = bind m (fun x => bind (k x) h) tr.
Proof.
  unfold bind. destruct (m tr) as [[a | e | c] tr']; reflexivity.
Qed.

Lemma main_prologue (env : Env) (tr : Log) :
  main env tr =
    match prologue env tr with
    | (Val (Some flowNames), log1) =>
        (orgs <- getAuthenticatedOrgs env ;;
         orgChoices <- lift (org_choices orgs) ;;
         orgAnswers <- prompts_orgQuestions env orgChoices ;;
         match confirmation orgAnswers with
         | Some true =>
             selected <- lift (iterate (selectedOrgs orgAnswers)) ;;
             activationLoop env selected flowNames
         | _ => console_log "Operation cancelled."
         end) log1
    | (Val None, log1) => console_log "Operation cancelled." log1
    | (Throw e, log1) => (Throw e, log1)
    | (Exit c, log1) => (Exit c, log1)
    end.
Proof.
  unfold main, prologue, sourceLine.
  unfold bind.
  destruct (displayAsciiArt env "Flow Activator" tr) as [[[] | e | c] log0]; try reflexivity.
  destruct (console_log _ log0) as [[[] | e | c] log0']; try reflexivity.
  destruct (prompts_flowQuestion env log0') as [[[names |] | e | c] log1]; reflexivity.
Qed.

Lemma main_reaches_loop (env : Env) (tr : Log) selected flowNames log2 :
  ReachesLoop env tr selected flowNames log2 ->
  main env tr = activationLoop env selected flowNames log2.
Proof.
  intros H. destruct H as [flowNames log1 out orgs choices answers selected
                             Hpro Hlist Hchoices Hans Hconf Hsel].
  rewrite main_prologue, Hpro.
  unfold bind at 1. rewrite Hlist.
  unfold bind at 1. unfold lift at 1. rewrite Hchoices.
  unfold bind at 1. unfold prompts_orgQuestions. rewrite Hans, Hconf.
  unfold bind, lift. rewrite Hsel. simpl iterate.
  norm_log. reflexivity.
Qed.

(** The loop never throws, so the handler at the top of the script has
    nothing to catch once the loop runs. *)
Lemma activationLoop_no_throw (env : Env) orgs flows tr e log :
  activationLoop env orgs flows tr <> (Throw e, log).
Proof.
  destruct (activationLoop_log env orgs flows tr)
    as (visits & [(Hrun & _) | (pre & o & post & r & e' & _ & _ & _ & _ & Hrun)]);
    rewrite Hrun; discriminate.
Qed.

Lemma program_reaches_loop (env : Env) (tr : Log) selected flowNames log2 :
  ReachesLoop env tr selected flowNames log2 ->
  program env tr = activationLoop env selected flowNames log2.
Proof.
  intros H. unfold program, try_catch. rewrite (main_reaches_loop _ _ _ _ _ H).
  destruct (activationLoop env selected flowNames log2) as [[[] | e | c] log] eqn:Hrun;
    try reflexivity.
  exfalso. exact (activationLoop_no_throw _ _ _ _ _ _ Hrun).
Qed.

(** ** The banner and the first prompt *)

Lemma displayAsciiArt_log (env : Env) (text : string) (tr : Log) :
  displayAsciiArt env text tr
    = (Val tt,
       (tr ++ [EFiglet text (figlet_textSync env tr text);
               bannerLine (figlet_textSync env tr text)])%list).
Proof.
  unfold displayAsciiArt, try_catch, bind, figlet, console_log, console_error,
    emit, answer, bannerLine.
  destruct (figlet_textSync env tr text) as [e | art]; norm_log; reflexivity.
Qed.

Lemma prologue_run (env : Env) (tr : Log) :
  let r := figlet_textSync env tr "Flow Activator" in
  let log0 := (tr ++ [EFiglet "Flow Activator" r; bannerLine r; ELog sourceLine])%list in
  prologue env tr
    = (Val (prompts_text flowQuestion_validate flowQuestion_format
              (operator_flows env log0)),
       (log0 ++ [EPromptFlows (operator_flows env log0)])%list).
Proof.
  cbv zeta. unfold prologue. unfold bind at 1. rewrite displayAsciiArt_log.
  unfold bind, console_log, emit, prompts_flowQuestion. norm_log. reflexivity.
Qed.

(** ** The claims on one activation *)

Lemma finds_of_record (data rec : JsVal) : returns_record data rec -> finds data rec.
Proof. exact (returns_record_found data rec). Qed.

(** C2.  When the step-1 flow-version query returns zero records, the
    activation logs that one request, reports [FlowNotFound] and returns:
    it makes no further request, and in particular no patch request. *)
Theorem flow_not_found_stops (env : Env) (f : string) (tok url : JsVal)
    (tr : Log) (d1 : JsVal) :
  axios_get env tr (queryUrl url) (mkRequestHeaders tok) (toolingQuery f) = inr d1 ->
  returns_no_record d1 ->
  exists evs,
    activateLatestFlow env f tok url tr = (Val tt, (tr ++ evs)%list)
    /\ evs = [versionLookup f tok url (inr d1); status_line f FlowNotFound]
    /\ existsb is_patch evs = false.
Proof.
  intros H1 Hnone. eexists. split; [ | split; [ reflexivity | reflexivity ] ].
  eapply activate_flow_not_found.
  - exact H1.
  - apply returns_no_record_first, Hnone.
  - reflexivity.
Qed.

Lemma flow_not_found_stops_witness :
  exists evs,
    activateLatestFlow Sample.env "FlowB" (JStr Sample.org1_token) (JStr Sample.org1_url) []
      = (Val tt, ([] ++ evs)%list)
    /\ evs = [versionLookup "FlowB" (JStr Sample.org1_token) (JStr Sample.org1_url)
                (inr (Sample.records []));
              status_line "FlowB" FlowNotFound]
    /\ existsb is_patch evs = false.
Proof.
  apply (flow_not_found_stops Sample.env "FlowB" (JStr Sample.org1_token)
           (JStr Sample.org1_url) [] (Sample.records [])).
  - reflexivity.
  - left. reflexivity.
Defined.

(** C3.  When the step-1 lookup returns a record and the step-2
    flow-definition query returns zero records, the activation logs those two
    requests, reports [DefinitionNotFound] and returns: it makes no further
    request, and in particular no patch request. *)
Theorem definition_not_found_stops (env : Env) (f : string) (tok url : JsVal)
    (tr : Log) (d1 rec1 d2 : JsVal) :
  axios_get env tr (queryUrl url) (mkRequestHeaders tok) (toolingQuery f) = inr d1 ->
  finds d1 rec1 ->
  axios_get env (tr ++ [versionLookup f tok url (inr d1)])%list
    (queryUrl url) (mkRequestHeaders tok) (definitionQuery f) = inr d2 ->
  returns_no_record d2 ->
  exists evs,
    activateLatestFlow env f tok url tr = (Val tt, (tr ++ evs)%list)
    /\ evs = [versionLookup f tok url (inr d1); definitionLookup f tok url (inr d2);
              status_line f DefinitionNotFound]
    /\ existsb is_patch evs = false.
Proof.
  intros H1 [R1 T1] H2 Hnone.
  eexists. split; [ | split; [ reflexivity | reflexivity ] ].
  eapply activate_definition_not_found; try eassumption.
  - apply returns_no_record_first, Hnone.
  - reflexivity.
Qed.

Lemma definition_not_found_stops_witness :
  exists evs,
    activateLatestFlow Sample.env_definition_missing "FlowA"
      (JStr Sample.org1_token) (JStr Sample.org1_url) []
      = (Val tt, ([] ++ evs)%list)
    /\ evs = [versionLookup "FlowA" (JStr Sample.org1_token) (JStr Sample.org1_url)
                (inr (Sample.records
                        [JObj [("Id", Sample.version_id "FlowA");
                               ("VersionNumber", JNum 3)]]));
              definitionLookup "FlowA" (JStr Sample.org1_token) (JStr Sample.org1_url)
                (inr (Sample.records []));
              status_line "FlowA" DefinitionNotFound]
    /\ existsb is_patch evs = false.
Proof.
  apply (definition_not_found_stops Sample.env_definition_missing "FlowA"
           (JStr Sample.org1_token) (JStr Sample.org1_url) []
           (Sample.records [JObj [("Id", Sample.version_id "FlowA");
                                  ("VersionNumber", JNum 3)]])
           (JObj [("Id", Sample.version_id "FlowA"); ("VersionNumber", JNum 3)])
           (Sample.records [])).
  - reflexivity.
  - split; reflexivity.
  - reflexivity.
  - left. reflexivity.
Defined.

(** C1, as stated, fails: with both lookups returning a record and the
    patch accepted, a verification query that the network drops ends the
    activation with [RemoteError], which is neither [Activated] nor
    [VerificationFailed]. *)
Lemma verification_error_is_no_verdict :
  let env := Sample.env_verification_down in
  let tok := JStr Sample.org1_token in
  let url := JStr Sample.org1_url in
  let rec1 := JObj [("Id", Sample.version_id "FlowA"); ("VersionNumber", JNum 3)] in
  let rec2 := JObj [("Id", Sample.definition_id "FlowA")] in
  let d1 := Sample.records [rec1] in
  let d2 := Sample.records [rec2] in
  let s1 := versionLookup "FlowA" tok url (inr d1) in
  let s2 := definitionLookup "FlowA" tok url (inr d2) in
  let s3 := activationPatch tok url (Sample.definition_id "FlowA") (JNum 3)
              (inr (JStr EmptyString)) in
  let s4 := verificationLookup tok url (Sample.definition_id "FlowA")
              (inl Sample.network_error) in
  axios_get env [] (queryUrl url) (mkRequestHeaders tok) (toolingQuery "FlowA") = inr d1
  /\ returns_record d1 rec1
  /\ axios_get env [s1] (queryUrl url) (mkRequestHeaders tok) (definitionQuery "FlowA")
     = inr d2
  /\ returns_record d2 rec2
  /\ axios_patch env [s1; s2] (definitionUrl url (Sample.definition_id "FlowA"))
       (activationMetadata (JNum 3)) (mkRequestHeaders tok) = inr (JStr EmptyString)
  /\ activateLatestFlow env "FlowA" tok url []
     = (Val tt, [s1; s2; s3; s4; status_line "FlowA" (RemoteError "Network Error")])
  /\ forall n,
       status_line "FlowA" (RemoteError "Network Error")
         <> status_line "FlowA" (Activated n)
       /\ status_line "FlowA" (RemoteError "Network Error")
         <> status_line "FlowA" (VerificationFailed n).
Proof.
  cbv zeta. repeat split; try reflexivity.
  - eexists _, _. split; reflexivity.
  - eexists _, _. split; reflexivity.
  - discriminate.
  - discriminate.
Qed.

(** Why the amended C1 asks for an [Id] on the step-1 record before it
    promises [VerificationFailed] on an empty verification result: without
    one, both sides of the comparison are [undefined], and equal. *)
Example empty_verification_of_idless_version :
  log_of (activateLatestFlow Sample.env_idless "FlowA"
            (JStr Sample.org1_token) (JStr Sample.org1_url) [])
  = [versionLookup "FlowA" (JStr Sample.org1_token) (JStr Sample.org1_url)
       (inr (Sample.records [JObj [("VersionNumber", JNum 3)]]));
     definitionLookup "FlowA" (JStr Sample.org1_token) (JStr Sample.org1_url)
       (inr (Sample.records [JObj [("Id", Sample.definition_id "FlowA")]]));
     activationPatch (JStr Sample.org1_token) (JStr Sample.org1_url)
       (Sample.definition_id "FlowA") (JNum 3) (inr (JStr EmptyString));
     verificationLookup (JStr Sample.org1_token) (JStr Sample.org1_url)
       (Sample.definition_id "FlowA") (inr (Sample.records []));
     status_line "FlowA" (Activated (JNum 3))].
Proof. reflexivity. Qed.

(** C1, amended.  When both lookups return a record, the patch call
    succeeds and the verification query returns a response that can be read,
    the outcome is [Activated versionNumber] if the [ActiveVersionId] of the
    first verification record is strictly equal to the [Id] of the step-1
    record, and [VerificationFailed versionNumber] otherwise, with
    [versionNumber] the step-1 record's [VersionNumber].  The second case
    includes a mismatching id and, when the step-1 record has an [Id], an
    empty verification result. *)
Theorem activation_verdict (env : Env) (f : string) (tok url : JsVal) (tr : Log)
    (d1 rec1 d2 rec2 p d4 rec4 : JsVal) :
  let n := opt_prop rec1 "VersionNumber" in
  let versionId := opt_prop rec1 "Id" in
  let defId := opt_prop rec2 "Id" in
  let s1 := versionLookup f tok url (inr d1) in
  let s2 := definitionLookup f tok url (inr d2) in
  let s3 := activationPatch tok url defId n (inr p) in
  let s4 := verificationLookup tok url defId (inr d4) in
  let verdict :=
    if strict_eq (opt_prop rec4 "ActiveVersionId") versionId
    then Activated n else VerificationFailed n in
  axios_get env tr (queryUrl url) (mkRequestHeaders tok) (toolingQuery f) = inr d1 ->
  finds d1 rec1 ->
  axios_get env (tr ++ [s1])%list (queryUrl url) (mkRequestHeaders tok)
    (definitionQuery f) = inr d2 ->
  finds d2 rec2 ->
  axios_patch env (tr ++ [s1; s2])%list (definitionUrl url defId)
    (activationMetadata n) (mkRequestHeaders tok) = inr p ->
  axios_get env (tr ++ [s1; s2; s3])%list (queryUrl url) (mkRequestHeaders tok)
    (verificationQuery defId) = inr d4 ->
  first_record d4 = inr rec4 ->
  activateLatestFlow env f tok url tr
    = (Val tt, (tr ++ [s1; s2; s3; s4; status_line f verdict])%list)
  /\ (forall id, versionId = JStr id ->
        (verdict = Activated n <-> opt_prop rec4 "ActiveVersionId" = JStr id)
        /\ (verdict = VerificationFailed n <-> opt_prop rec4 "ActiveVersionId" <> JStr id))
  /\ (returns_no_record d4 -> versionId <> JUndefined -> verdict = VerificationFailed n).
Proof.
  intros n versionId defId s1 s2 s3 s4 verdict H1 [R1 T1] H2 [R2 T2] H3 H4 R4.
  split; [ | split ].
  - subst verdict versionId n defId s1 s2 s3 s4.
    eapply activate_verified; eassumption.
  - intros id Hid. subst verdict. rewrite Hid.
    destruct (opt_prop rec4 "ActiveVersionId") as [| | b | z | s | l | fs]; simpl;
      try (destruct (String.eqb s id) eqn:E;
           [ apply String.eqb_eq in E; subst s | apply String.eqb_neq in E ]);
      (split; split; intros; congruence).
  - intros Hnone Hdef. subst verdict.
    pose proof (returns_no_record_first d4 Hnone) as R4'.
    rewrite R4 in R4'. injection R4' as ->.
    cbn [opt_prop get_prop]. destruct versionId; simpl; try reflexivity.
    now elim Hdef.
Qed.

Lemma activation_verdict_witness :
  activateLatestFlow Sample.env "FlowA" (JStr Sample.org1_token) (JStr Sample.org1_url) []
  = (Val tt,
     [versionLookup "FlowA" (JStr Sample.org1_token) (JStr Sample.org1_url)
        (inr (Sample.records [JObj [("Id", Sample.version_id "FlowA");
                                    ("VersionNumber", JNum 3)]]));
      definitionLookup "FlowA" (JStr Sample.org1_token) (JStr Sample.org1_url)
        (inr (Sample.records [JObj [("Id", Sample.definition_id "FlowA")]]));
      activationPatch (JStr Sample.org1_token) (JStr Sample.org1_url)
        (Sample.definition_id "FlowA") (JNum 3) (inr (JStr EmptyString));
      verificationLookup (JStr Sample.org1_token) (JStr Sample.org1_url)
        (Sample.definition_id "FlowA")
        (inr (Sample.records [JObj [("ActiveVersionId", Sample.version_id "FlowA")]]));
      status_line "FlowA" (Activated (JNum 3))]).
Proof.
  pose proof (activation_verdict Sample.env "FlowA"
                (JStr Sample.org1_token) (JStr Sample.org1_url) []
                (Sample.records [JObj [("Id", Sample.version_id "FlowA");
                                       ("VersionNumber", JNum 3)]])
                (JObj [("Id", Sample.version_id "FlowA"); ("VersionNumber", JNum 3)])
                (Sample.records [JObj [("Id", Sample.definition_id "FlowA")]])
                (JObj [("Id", Sample.definition_id "FlowA")])
                (JStr EmptyString)
                (Sample.records [JObj [("ActiveVersionId", Sample.version_id "FlowA")]])
                (JObj [("ActiveVersionId", Sample.version_id "FlowA")])) as H.
  cbv zeta in H.
  destruct H as [Hrun _].
  - reflexivity.
  - split; reflexivity.
  - reflexivity.
  - split; reflexivity.
  - reflexivity.
  - reflexivity.
  - reflexivity.
  - exact Hrun.
Defined.








(** A run in which every verification query fails, in full: every flow is
    still attempted in every org. *)
Example verification_down_run :
  result_of (activationLoop Sample.env_verification_down
               [JStr "Org1"; JStr "Org2"] ["FlowA"; "FlowB"] []) = Val tt
  /\ filter is_console
       (log_of (activationLoop Sample.env_verification_down
                  [JStr "Org1"; JStr "Org2"] ["FlowA"; "FlowB"] []))
     = [orgHeader (JStr "Org1");
        status_line "FlowA" (RemoteError "Network Error");
        status_line "FlowB" FlowNotFound;
        orgHeader (JStr "Org2");
        status_line "FlowA" (RemoteError "Network Error");
        status_line "FlowB" (RemoteError "Network Error")].
Proof.
  split; reflexivity.
Qed.

(** C9.  An activation whose version lookup and definition lookup each
    find a record reaches step 3, and there it sends the patch: its log is
    the version lookup, whose query ends in
    [ORDER BY VersionNumber DESC LIMIT 1], the definition lookup, then one
    patch request to the endpoint of the definition record found, carrying
    exactly the body [{Metadata: {activeVersionNumber: n}}] with [n] the
    [VersionNumber] of the record that the version lookup returned; no
    second patch follows.  Conversely, whenever an activation sends a patch
    request, it is that one. *)
Theorem patch_carries_latest_version (env : Env) (f : string) (tok url : JsVal)
    (tr : Log) :
  (forall d1 rec1 d2 rec2,
      axios_get env tr (queryUrl url) (mkRequestHeaders tok) (toolingQuery f) = inr d1 ->
      finds d1 rec1 ->
      axios_get env (tr ++ [versionLookup f tok url (inr d1)])%list
        (queryUrl url) (mkRequestHeaders tok) (definitionQuery f) = inr d2 ->
      finds d2 rec2 ->
      let sent :=
        (tr ++ [EGet (queryUrl url) (mkRequestHeaders tok)
                  ("SELECT Id, VersionNumber FROM Flow WHERE Definition.DeveloperName = '"
                     ++ f ++ "' ORDER BY VersionNumber DESC LIMIT 1")
                  (inr d1);
                definitionLookup f tok url (inr d2)])%list in
      let target := definitionUrl url (opt_prop rec2 "Id") in
      let body :=
        JObj [("Metadata",
               JObj [("activeVersionNumber", opt_prop rec1 "VersionNumber")])] in
      let r := axios_patch env sent target body (mkRequestHeaders tok) in
      exists rest o,
        activateLatestFlow env f tok url tr
          = (Val tt,
             (sent ++ EPatch target body (mkRequestHeaders tok) r
                   :: rest ++ [status_line f o])%list)
        /\ existsb is_patch rest = false)
  /\ exists reqs o,
       activateLatestFlow env f tok url tr
         = (Val tt, (tr ++ reqs ++ [status_line f o])%list)
       /\ forall u body h r,
            In (EPatch u body h r) reqs ->
            exists d1 rec1 d2 rec2 rest,
              reqs = (EGet (queryUrl url) (mkRequestHeaders tok)
                        ("SELECT Id, VersionNumber FROM Flow WHERE Definition.DeveloperName = '"
                           ++ f ++ "' ORDER BY VersionNumber DESC LIMIT 1")
                        (inr d1)
                      :: definitionLookup f tok url (inr d2)
                      :: EPatch u body h r :: rest)%list
              /\ finds d1 rec1
              /\ finds d2 rec2
              /\ u = definitionUrl url (opt_prop rec2 "Id")
              /\ body = JObj [("Metadata",
                               JObj [("activeVersionNumber",
                                      opt_prop rec1 "VersionNumber")])]
              /\ h = mkRequestHeaders tok
              /\ existsb is_patch rest = false.
Proof.
  split.
  - intros d1 rec1 d2 rec2 H1 [R1 T1] H2 [R2 T2] sent target body r.
    change (EGet (queryUrl url) (mkRequestHeaders tok)
              ("SELECT Id, VersionNumber FROM Flow WHERE Definition.DeveloperName = '"
                 ++ f ++ "' ORDER BY VersionNumber DESC LIMIT 1") (inr d1))
      with (versionLookup f tok url (inr d1)) in sent.
    change body with (activationMetadata (opt_prop rec1 "VersionNumber")) in r.
    destruct r as [e | p] eqn:H3; subst r.
    { exists [], (RemoteError (message e)). split; [ | reflexivity ].
      subst sent target body. rewrite <- app_assoc. cbn [app].
      eapply activate_patch_error; eassumption. }
    destruct (axios_get env
                (sent ++ [activationPatch tok url (opt_prop rec2 "Id")
                            (opt_prop rec1 "VersionNumber") (inr p)])%list
                (queryUrl url) (mkRequestHeaders tok)
                (verificationQuery (opt_prop rec2 "Id"))) as [e | d4] eqn:H4.
    { exists [verificationLookup tok url (opt_prop rec2 "Id") (inl e)],
        (RemoteError (message e)).
      split; [ | reflexivity ].
      subst sent target body. rewrite <- app_assoc in H4 |- *. cbn [app] in H4 |- *.
      eapply activate_verification_error; eassumption. }
    destruct (first_record d4) as [e | rec4] eqn:R4.
    { exists [verificationLookup tok url (opt_prop rec2 "Id") (inr d4)],
        (RemoteError (message e)).
      split; [ | reflexivity ].
      subst sent target body. rewrite <- app_assoc in H4 |- *. cbn [app] in H4 |- *.
      eapply activate_verification_unreadable; eassumption. }
    exists [verificationLookup tok url (opt_prop rec2 "Id") (inr d4)],
      (if strict_eq (opt_prop rec4 "ActiveVersionId") (opt_prop rec1 "Id")
       then Activated (opt_prop rec1 "VersionNumber")
       else VerificationFailed (opt_prop rec1 "VersionNumber")).
    split; [ | reflexivity ].
    subst sent target body. rewrite <- app_assoc in H4 |- *. cbn [app] in H4 |- *.
    eapply activate_verified; eassumption.
  - destruct (activateLatestFlow_log env f tok url tr) as (reqs & o & Hrun & Hlog).
    exists reqs, o. split; [ exact Hrun | ].
    intros u body h r Hin.
    destruct Hlog; simpl in Hin;
      repeat match goal with
             | H : _ \/ _ |- _ => destruct H
             | H : False |- _ => contradiction H
             | H : versionLookup _ _ _ _ = EPatch _ _ _ _ |- _ => discriminate H
             | H : definitionLookup _ _ _ _ = EPatch _ _ _ _ |- _ => discriminate H
             | H : verificationLookup _ _ _ _ = EPatch _ _ _ _ |- _ => discriminate H
             | H : activationPatch _ _ _ _ _ = EPatch _ _ _ _ |- _ =>
                 unfold activationPatch in H; injection H as <- <- <- <-
             end;
      eexists d1, rec1, d2, rec2, _;
      (split; [ reflexivity | ]);
      repeat split; assumption.
Qed.

Lemma patch_carries_latest_version_witness :
  exists rest o,
    activateLatestFlow Sample.env "FlowA" (JStr Sample.org1_token) (JStr Sample.org1_url) []
    = (Val tt,
       ([EGet "https://org1.my.salesforce.com/services/data/v59.0/tooling/query"
           (mkHeaders "Bearer 00D1!AQEAQ" "application/json")
           "SELECT Id, VersionNumber FROM Flow WHERE Definition.DeveloperName = 'FlowA' ORDER BY VersionNumber DESC LIMIT 1"
           (inr (Sample.records [JObj [("Id", JStr "301xx000000003AAA");
                                       ("VersionNumber", JNum 3)]]));
         EGet "https://org1.my.salesforce.com/services/data/v59.0/tooling/query"
           (mkHeaders "Bearer 00D1!AQEAQ" "application/json")
           "SELECT Id FROM FlowDefinition WHERE DeveloperName = 'FlowA'"
           (inr (Sample.records [JObj [("Id", JStr "300xx000000001AAA")]]))]
        ++ EPatch
             "https://org1.my.salesforce.com/services/data/v59.0/tooling/sobjects/FlowDefinition/300xx000000001AAA"
             (JObj [("Metadata", JObj [("activeVersionNumber", JNum 3)])])
             (mkHeaders "Bearer 00D1!AQEAQ" "application/json")
             (inr (JStr EmptyString))
        :: rest ++ [status_line "FlowA" o])%list)
    /\ existsb is_patch rest = false.
Proof.
  destruct (patch_carries_latest_version Sample.env "FlowA"
              (JStr Sample.org1_token) (JStr Sample.org1_url) []) as [Hsent _].
  exact (Hsent
           (Sample.records [JObj [("Id", Sample.version_id "FlowA");
                                  ("VersionNumber", JNum 3)]])
           (JObj [("Id", Sample.version_id "FlowA"); ("VersionNumber", JNum 3)])
           (Sample.records [JObj [("Id", Sample.definition_id "FlowA")]])
           (JObj [("Id", Sample.definition_id "FlowA")])
           eq_refl (conj eq_refl eq_refl) eq_refl (conj eq_refl eq_refl)).
Defined.

(** ** Query strings *)

Lemma count_char_app (c : ascii) (a b : string) :
  count_char c (a ++ b) = count_char c a + count_char c b.
Proof.
  induction a as [| x a IH]; simpl.
  - reflexivity.
  - rewrite IH. lia.
Qed.

Lemma up_to_app (c : ascii) (a b : string) :
  up_to c (a ++ String c b) = up_to c a.
Proof.
  induction a as [| x a IH]; simpl.
  - now rewrite Ascii.eqb_refl.
  - destruct (Ascii.eqb x c); [ reflexivity | now rewrite IH ].
Qed.

Lemma count_up_to (c : ascii) (s : string) : count_char c (up_to c s) = 0.
Proof.
  induction s as [| x s IH]; simpl.
  - reflexivity.
  - destruct (Ascii.eqb x c) eqn:E; simpl; [ reflexivity | now rewrite E ].
Qed.

Lemma up_to_absent (c : ascii) (s : string) : count_char c s = 0 -> up_to c s = s.
Proof.
  induction s as [| x s IH]; simpl.
  - reflexivity.
  - destruct (Ascii.eqb x c); [ discriminate | ].
    intros H. now rewrite IH.
Qed.

Lemma up_to_present (c : ascii) (s : string) : 0 < count_char c s -> up_to c s <> s.
Proof.
  intros H E. pose proof (count_up_to c s) as Hz. rewrite E in Hz. lia.
Qed.

Lemma toolingQuery_literal (f : string) : quoted_literal (toolingQuery f) = up_to quote f.
Proof.
  unfold quoted_literal, toolingQuery. cbn -[up_to]. apply up_to_app.
Qed.

Lemma definitionQuery_literal (f : string) :
  quoted_literal (definitionQuery f) = up_to quote f.
Proof.
  unfold quoted_literal, definitionQuery. cbn -[up_to]. apply up_to_app.
Qed.

Lemma toolingQuery_quotes (f : string) :
  count_char quote (toolingQuery f) = 2 + count_char quote f.
Proof.
  unfold toolingQuery. rewrite !count_char_app. cbn. lia.
Qed.

Lemma definitionQuery_quotes (f : string) :
  count_char quote (definitionQuery f) = 2 + count_char quote f.
Proof.
  unfold definitionQuery. rewrite !count_char_app. cbn. lia.
Qed.

(** C10, as stated, fails for the third query string: the verification
    query of an activation of [FlowA] does not contain the flow name at
    all; it is built from the definition record's id. *)
Lemma verification_query_omits_flow_name :
  queries_of (log_of (activateLatestFlow Sample.env "FlowA"
                        (JStr Sample.org1_token) (JStr Sample.org1_url) []))
  = ["SELECT Id, VersionNumber FROM Flow WHERE Definition.DeveloperName = 'FlowA' ORDER BY VersionNumber DESC LIMIT 1";
     "SELECT Id FROM FlowDefinition WHERE DeveloperName = 'FlowA'";
     "SELECT ActiveVersionId FROM FlowDefinition WHERE Id = '300xx000000001AAA'"]
  /\ occurs_in "FlowA"
       "SELECT ActiveVersionId FROM FlowDefinition WHERE Id = '300xx000000001AAA'"
     = false.
Proof.
  split; reflexivity.
Qed.

(** C10, amended.  The two lookup queries embed the operator's flow name
    verbatim between single quotes; the third query sent, the verification
    query, embeds instead the id of the definition record found at step 2.
    Nothing is escaped: the lookup queries have two more quote characters
    than the name, and the text between the first two quote characters is the
    name only up to its first quote.  Hence for a name that contains a quote
    the query has more than the template's two quotes and its literal is not
    the name. *)
Theorem lookup_queries_embed_name_verbatim (env : Env) (f : string) (tok url : JsVal)
    (tr : Log) :
  (exists reqs o,
      activateLatestFlow env f tok url tr
        = (Val tt, (tr ++ reqs ++ [status_line f o])%list)
      /\ (queries_of reqs = [toolingQuery f]
          \/ queries_of reqs = [toolingQuery f; definitionQuery f]
          \/ exists d2 rec2,
               In (definitionLookup f tok url (inr d2)) reqs
               /\ finds d2 rec2
               /\ queries_of reqs
                  = [toolingQuery f; definitionQuery f;
                     "SELECT ActiveVersionId FROM FlowDefinition WHERE Id = '"
                       ++ toStr (opt_prop rec2 "Id") ++ "'"]))
  /\ toolingQuery f
     = "SELECT Id, VersionNumber FROM Flow WHERE Definition.DeveloperName = '"
         ++ f ++ "' ORDER BY VersionNumber DESC LIMIT 1"
  /\ definitionQuery f
     = "SELECT Id FROM FlowDefinition WHERE DeveloperName = '" ++ f ++ "'"
  /\ count_char quote (toolingQuery f) = 2 + count_char quote f
  /\ count_char quote (definitionQuery f) = 2 + count_char quote f
  /\ quoted_literal (toolingQuery f) = up_to quote f
  /\ quoted_literal (definitionQuery f) = up_to quote f
  /\ (count_char quote f = 0 ->
      quoted_literal (toolingQuery f) = f /\ quoted_literal (definitionQuery f) = f)
  /\ (0 < count_char quote f ->
      2 < count_char quote (toolingQuery f)
      /\ 2 < count_char quote (definitionQuery f)
      /\ quoted_literal (toolingQuery f) <> f
      /\ quoted_literal (definitionQuery f) <> f).
Proof.
  split.
  { destruct (activateLatestFlow_log env f tok url tr) as (reqs & o & Hrun & Hlog).
    exists reqs, o. split; [ exact Hrun | ].
    destruct Hlog.
    1-3: left; reflexivity.
    1-4: right; left; reflexivity.
    all: right; right; exists d2, rec2;
         (split; [ right; left; reflexivity | split; [ split; assumption | reflexivity ] ]). }
  split; [ reflexivity | ].
  split; [ reflexivity | ].
  split; [ apply toolingQuery_quotes | ].
  split; [ apply definitionQuery_quotes | ].
  split; [ apply toolingQuery_literal | ].
  split; [ apply definitionQuery_literal | ].
  split.
  - intros H. rewrite toolingQuery_literal, definitionQuery_literal.
    split; apply up_to_absent, H.
  - intros H. rewrite toolingQuery_quotes, definitionQuery_quotes.
    rewrite toolingQuery_literal, definitionQuery_literal.
    repeat split; try lia; apply up_to_present, H.
Qed.

Lemma lookup_queries_embed_name_verbatim_witness :
  2 < count_char quote (toolingQuery "O'Brien_Flow")
  /\ quoted_literal (toolingQuery "O'Brien_Flow") = "O"
  /\ quoted_literal (toolingQuery "O'Brien_Flow") <> "O'Brien_Flow".
Proof.
  destruct (lookup_queries_embed_name_verbatim Sample.env "O'Brien_Flow"
              (JStr Sample.org1_token) (JStr Sample.org1_url) [])
    as (_ & _ & _ & _ & _ & Hlit & _ & _ & Hquote).
  destruct Hquote as (Hcount & _ & Hneq & _).
  - cbn. lia.
  - split; [ exact Hcount | split; [ rewrite Hlit; reflexivity | exact Hneq ] ].
Defined.

(** ** Flow names *)

Lemma split_semi_length (s : string) :
  length (split_semi s) = S (count_char semicolon s).
Proof.
  induction s as [| c s IH]; simpl.
  - reflexivity.
  - destruct (Ascii.eqb c semicolon); simpl.
    + now rewrite IH.
    + destruct (split_semi s); simpl in *; lia.
Qed.

Lemma split_semi_app (n rest : string) :
  count_char semicolon n = 0 ->
  split_semi (n ++ String semicolon rest) = n :: split_semi rest.
Proof.
  induction n as [| c n IH]; simpl.
  - reflexivity.
  - destruct (Ascii.eqb c semicolon); [ discriminate | ].
    intros H. now rewrite IH.
Qed.

Lemma split_semi_single (n : string) :
  count_char semicolon n = 0 -> split_semi n = [n].
Proof.
  induction n as [| c n IH]; simpl.
  - reflexivity.
  - destruct (Ascii.eqb c semicolon); [ discriminate | ].
    intros H. now rewrite IH.
Qed.

(** Splitting what the operator typed gives back the names, whatever they
    are, as long as none contains the separator. *)
Lemma split_semi_join (names : list string) :
  names <> [] ->
  Forall (fun n => count_char semicolon n = 0) names ->
  split_semi (join_semi names) = names.
Proof.
  intros Hne Hall. induction Hall as [| n rest Hn Hrest IH].
  - contradiction.
  - destruct rest as [| m rest].
    + simpl. now apply split_semi_single.
    + change (join_semi (n :: m :: rest))
        with (n ++ String semicolon (join_semi (m :: rest))).
      rewrite split_semi_app by assumption.
      rewrite IH by discriminate. reflexivity.
Qed.

(** Every input is the join of its segments, so the names range over all
    inputs. *)
Lemma join_semi_split (s : string) : join_semi (split_semi s) = s.
Proof.
  induction s as [| c s IH]; simpl.
  - reflexivity.
  - destruct (Ascii.eqb c semicolon) eqn:E.
    + apply Ascii.eqb_eq in E. subst c.
      destruct (split_semi s) as [| seg segs] eqn:Hs.
      * pose proof (split_semi_length s) as Hl. rewrite Hs in Hl. discriminate.
      * change (join_semi (EmptyString :: seg :: segs))
          with (String semicolon (join_semi (seg :: segs))).
        now rewrite IH.
    + destruct (split_semi s) as [| seg segs] eqn:Hs.
      * pose proof (split_semi_length s) as Hl. rewrite Hs in Hl. discriminate.
      * destruct segs as [| seg' segs]; simpl in *; now rewrite IH.
Qed.


(** ** White space *)

Ltac strip_cases tac :=
  repeat (cbn [strip_space trimStart all_space append] in *;
          first [ solve [ tac ]
                | match goal with
                  | |- context [if ?t then _ else _] =>
                      match type of t with bool => destruct t end
                  | |- context [match ?r with
                                | EmptyString => _
                                | String _ _ => _
                                end] => is_var r; destruct r
                  end ]).

Lemma strip_space_shorter (s r : string) :
  strip_space s = Some r -> String.length r < String.length s.
Proof.
  destruct s as [| a rest]; strip_cases ltac:(intros H; try discriminate H; injection H as <-; simpl; lia).
Qed.

Lemma strip_space_count (x : ascii) (s r : string) :
  strip_space s = Some r -> count_char x r <= count_char x s.
Proof.
  destruct s as [| a rest]; strip_cases ltac:(intros H; try discriminate H; injection H as <-; simpl; repeat destruct (Ascii.eqb _ _); lia).
Qed.

Lemma strip_space_app (s r w : string) :
  strip_space s = Some r -> strip_space (s ++ w) = Some (r ++ w).
Proof.
  destruct s as [| a rest]; strip_cases ltac:(intros H; try discriminate H; injection H as <-; reflexivity).
Qed.

Lemma trimStart_strip (s : string) :
  trimStart s = match strip_space s with
                | Some r => trimStart r
                | None => s
                end.
Proof.
  destruct s as [| a rest]; strip_cases ltac:(reflexivity).
Qed.

Lemma all_space_strip (s : string) :
  all_space s = match s with
                | EmptyString => true
                | String _ _ =>
                    match strip_space s with
                    | Some r => all_space r
                    | None => false
                    end
                end.
Proof.
  destruct s as [| a rest]; strip_cases ltac:(reflexivity).
Qed.

(** Induction along the white-space characters at the front. *)
Lemma strip_space_ind (P : string -> Prop) :
  (forall s, strip_space s = None -> P s) ->
  (forall s r, strip_space s = Some r -> P r -> P s) ->
  forall s, P s.
Proof.
  intros Hnone Hsome.
  assert (H : forall n s, String.length s < n -> P s).
  { induction n as [| n IH]; intros s Hlen; [ lia | ].
    destruct (strip_space s) as [r |] eqn:E.
    - apply (Hsome s r E). apply IH.
      pose proof (strip_space_shorter _ _ E). lia.
    - now apply Hnone. }
  intros s. apply (H (S (String.length s))). lia.
Qed.

Lemma all_space_trimStart (s : string) : all_space (trimStart s) = all_space s.
Proof.
  induction s as [s E | s r E IH] using strip_space_ind;
    rewrite trimStart_strip, E.
  - reflexivity.
  - rewrite IH. rewrite (all_space_strip s), E.
    destruct s; [ discriminate E | reflexivity ].
Qed.

Lemma all_space_app (q w : string) :
  all_space q = true -> all_space (q ++ w) = all_space w.
Proof.
  induction q as [q E | q r E IH] using strip_space_ind; intros Hq.
  - destruct q as [| a q']; [ reflexivity | ].
    rewrite all_space_strip, E in Hq. discriminate Hq.
  - assert (Hr : all_space r = true).
    { rewrite all_space_strip, E in Hq. destruct q; [ discriminate E | exact Hq ]. }
    rewrite (all_space_strip (q ++ w)), (strip_space_app _ _ w E).
    destruct q as [| a q']; [ discriminate E | ]. cbn [append]. now apply IH.
Qed.

Lemma trimEnd_empty (t : string) : trimEnd t = EmptyString <-> all_space t = true.
Proof.
  destruct t as [| c t]; cbn [trimEnd].
  - split; reflexivity.
  - destruct (all_space (String c t)); split; intros H;
      try reflexivity; discriminate H.
Qed.

(** A trimmed segment is empty exactly when the segment is blank. *)
Lemma trim_empty (s : string) : trim s = EmptyString <-> all_space s = true.
Proof.
  unfold trim. rewrite trimEnd_empty. now rewrite all_space_trimStart.
Qed.

Lemma trimEnd_split (s : string) :
  exists w, s = trimEnd s ++ w /\ all_space w = true.
Proof.
  induction s as [| c s (w & Hs & Hw)]; cbn [trimEnd].
  - exists EmptyString. split; reflexivity.
  - destruct (all_space (String c s)) eqn:E.
    + exists (String c s). split; [ reflexivity | exact E ].
    + exists w. split; [ cbn [append]; now rewrite <- Hs | exact Hw ].
Qed.

Lemma trimStart_starts (s : string) : starts_with_space (trimStart s) = false.
Proof.
  induction s as [s E | s r E IH] using strip_space_ind;
    rewrite trimStart_strip, E.
  - unfold starts_with_space. now rewrite E.
  - exact IH.
Qed.

Lemma trimEnd_starts (t : string) :
  starts_with_space t = false -> starts_with_space (trimEnd t) = false.
Proof.
  unfold starts_with_space.
  destruct t as [| a [| b [| c r]]]; cbn [trimEnd strip_space];
    repeat match goal with
           | |- context [all_space ?s] => destruct (all_space s)
           end;
    cbn [strip_space];
    repeat match goal with
           | |- context [if ?x then _ else _] =>
               match type of x with bool => destruct x end
           end;
    intros H; try discriminate H; reflexivity.
Qed.

Lemma trimEnd_ends (t : string) : ends_with_space (trimEnd t) = false.
Proof.
  induction t as [| c t IH]; cbn [trimEnd].
  - reflexivity.
  - destruct (all_space (String c t)) eqn:E; [ reflexivity | ].
    cbn [ends_with_space]. rewrite IH, orb_false_r.
    destruct (all_space (String c (trimEnd t))) eqn:E'; [ | reflexivity ].
    destruct (trimEnd_split t) as (w & Ht & Hw).
    pose proof (all_space_app (String c (trimEnd t)) w E') as Happ.
    cbn [append] in Happ. rewrite <- Ht in Happ. congruence.
Qed.

Lemma trim_trimmed (s : string) : trimmed (trim s).
Proof.
  split.
  - apply trimEnd_starts, trimStart_starts.
  - apply trimEnd_ends.
Qed.

Lemma trimStart_count (c : ascii) (s : string) :
  count_char c (trimStart s) <= count_char c s.
Proof.
  induction s as [s E | s r E IH] using strip_space_ind;
    rewrite trimStart_strip, E.
  - lia.
  - pose proof (strip_space_count c _ _ E). lia.
Qed.

Lemma trimEnd_count (c : ascii) (s : string) :
  count_char c (trimEnd s) <= count_char c s.
Proof.
  induction s as [| x s IH]; cbn [trimEnd].
  - lia.
  - destruct (all_space (String x s)); simpl; lia.
Qed.

Lemma trimStart_fixed (t : string) : starts_with_space t = false -> trimStart t = t.
Proof.
  unfold starts_with_space. intros H. rewrite trimStart_strip.
  destruct (strip_space t); [ discriminate H | reflexivity ].
Qed.

Lemma trimEnd_fixed (t : string) : ends_with_space t = false -> trimEnd t = t.
Proof.
  induction t as [| c t IH]; cbn [trimEnd ends_with_space].
  - reflexivity.
  - intros H. apply orb_false_elim in H. destruct H as [Ha He].
    rewrite Ha, (IH He). reflexivity.
Qed.

Lemma trim_fixed (t : string) : trimmed t -> trim t = t.
Proof.
  intros [Hf Hl]. unfold trim. rewrite (trimStart_fixed _ Hf). now apply trimEnd_fixed.
Qed.

Lemma prompts_text_accepted (attempts : list string) (flowNames : list string) :
  prompts_text flowQuestion_validate flowQuestion_format attempts = Some flowNames ->
  exists entered,
    In entered attempts /\ entered <> EmptyString
    /\ flowNames = flowQuestion_format entered.
Proof.
  induction attempts as [| s rest IH]; simpl.
  - discriminate.
  - unfold flowQuestion_validate at 1. simpl.
    destruct (String.eqb s EmptyString) eqn:E; simpl.
    + intros H. destruct (IH H) as (entered & Hin & Hne & Hfmt).
      exists entered. auto.
    + intros H. injection H as <-. exists s. apply String.eqb_neq in E. auto.
Qed.

Lemma prompts_text_first_accepted (refused : list string) (input : string)
    (later : list string) :
  Forall (fun s => s = EmptyString) refused ->
  input <> EmptyString ->
  prompts_text flowQuestion_validate flowQuestion_format (refused ++ input :: later)%list
    = Some (flowQuestion_format input).
Proof.
  intros Hrefused Hinput.
  induction Hrefused as [| s rest Hs _ IH]; simpl.
  - unfold flowQuestion_validate. simpl.
    destruct (String.eqb input EmptyString) eqn:E; [ | reflexivity ].
    apply String.eqb_eq in E. contradiction.
  - subst s. exact IH.
Qed.

(** C5, as stated, fails: a name followed by a semicolon is accepted and
    yields two entries, the second one empty; a blank input is accepted and
    yields one empty entry. *)
Lemma trailing_semicolon_yields_empty_name :
  prompts_text flowQuestion_validate flowQuestion_format ["FlowA;"]
    = Some ["FlowA"; EmptyString]
  /\ prompts_text flowQuestion_validate flowQuestion_format [" "] = Some [EmptyString].
Proof.
  split; reflexivity.
Qed.

(** C5, amended.  For every input of N semicolon-separated names (N at
    least 1, no name containing a semicolon), the list passed on has exactly
    N entries, the trimmed names in the order entered; an entry is empty
    exactly when its name is blank, so the entries are all non-empty when no
    name is blank.  The empty input is refused with the message of the
    question; the first non-empty submission is accepted, whatever it
    contains, and its formatted form is the answer of the prompt and the list
    the activation loop runs with.  That list is never empty. *)
Theorem flow_names_are_the_trimmed_segments (names : list string) :
  names <> [] ->
  Forall (fun n => count_char semicolon n = 0) names ->
  let out := flowQuestion_format (join_semi names) in
  out = map trim names
  /\ length out = length names
  /\ Forall trimmed out
  /\ (forall i n, nth_error names i = Some n ->
        (nth_error out i = Some EmptyString <-> all_space n = true))
  /\ (Forall (fun n => all_space n = false) names ->
      Forall (fun entry => entry <> EmptyString) out)
  /\ flowQuestion_validate EmptyString = Invalid "Please enter at least one flow name"
  /\ (forall attempts flowNames,
        prompts_text flowQuestion_validate flowQuestion_format attempts = Some flowNames ->
        flowNames <> []
        /\ exists entered,
             In entered attempts /\ entered <> EmptyString
             /\ flowNames = flowQuestion_format entered)
  /\ (forall refused input later,
        Forall (fun s => s = EmptyString) refused ->
        input <> EmptyString ->
        prompts_text flowQuestion_validate flowQuestion_format
          (refused ++ input :: later)%list
          = Some (flowQuestion_format input))
  /\ (forall env tr refused input later selected flowNames log2,
        let r := figlet_textSync env tr "Flow Activator" in
        let log0 :=
          (tr ++ [EFiglet "Flow Activator" r; bannerLine r; ELog sourceLine])%list in
        operator_flows env log0 = (refused ++ input :: later)%list ->
        Forall (fun s => s = EmptyString) refused ->
        input <> EmptyString ->
        prologue env tr
          = (Val (Some (flowQuestion_format input)),
             (log0 ++ [EPromptFlows (refused ++ input :: later)])%list)
        /\ (ReachesLoop env tr selected flowNames log2 ->
            flowNames = flowQuestion_format input
            /\ program env tr
                = activationLoop env selected (flowQuestion_format input) log2)).
Proof.
  intros Hne Hall out.
  assert (Hout : out = map trim names).
  { subst out. unfold flowQuestion_format. now rewrite split_semi_join. }
  split; [ exact Hout | ].
  split; [ rewrite Hout; apply length_map | ].
  split.
  { rewrite Hout. apply Forall_map, Forall_forall. intros n _. apply trim_trimmed. }
  split.
  { intros i n Hi. rewrite Hout, nth_error_map, Hi. simpl.
    rewrite <- trim_empty. split; [ intros H; now injection H | intros ->; reflexivity ]. }
  split.
  { intros Hblank. rewrite Hout. apply Forall_map.
    eapply Forall_impl; [ | exact Hblank ].
    intros n Hn E. apply trim_empty in E. congruence. }
  split; [ reflexivity | ].
  split.
  { intros attempts flowNames H.
    destruct (prompts_text_accepted attempts flowNames H)
      as (entered & Hin & Hnonempty & Hfmt).
    split.
    - subst flowNames. unfold flowQuestion_format.
      pose proof (split_semi_length entered) as Hl.
      destruct (split_semi entered); [ discriminate Hl | discriminate ].
    - exists entered. auto. }
  split; [ exact prompts_text_first_accepted | ].
  intros env tr refused input later selected flowNames log2 r log0 Hop Hrefused Hinput.
  assert (Hpro : prologue env tr
            = (Val (Some (flowQuestion_format input)),
               (log0 ++ [EPromptFlows (refused ++ input :: later)])%list)).
  { pose proof (prologue_run env tr) as Hrun. cbv zeta in Hrun.
    subst log0 r. rewrite Hop in Hrun.
    rewrite (prompts_text_first_accepted refused input later Hrefused Hinput) in Hrun.
    exact Hrun. }
  split; [ exact Hpro | ].
  intros Hloop.
  assert (Hnames : flowNames = flowQuestion_format input).
  { inversion Hloop as [names0 log1 out0 orgs choices answers sel Hp]. subst names0.
    rewrite Hpro in Hp. now injection Hp as <- _. }
  split; [ exact Hnames | ].
  rewrite <- Hnames. now apply program_reaches_loop.
Qed.

Lemma flow_names_are_the_trimmed_segments_witness :
  flowQuestion_format "FlowA; FlowB " = ["FlowA"; "FlowB"]
  /\ fst (prologue Sample.env []) = Val (Some ["FlowA"; "FlowB"]).
Proof.
  destruct (flow_names_are_the_trimmed_segments ["FlowA"; " FlowB "])
    as (Hout & _ & _ & _ & _ & _ & _ & _ & Hrun).
  - discriminate.
  - repeat constructor.
  - split; [ exact Hout | ].
    destruct (Hrun Sample.env [] [EmptyString] "FlowA;FlowB" [] [] [] []) as [Hp _].
    + reflexivity.
    + repeat constructor.
    + discriminate.
    + rewrite Hp. reflexivity.
Defined.

(** ** The claims on the loop and on fatal failures *)

Lemma credential_read_not_failure (env : Env) (r : Exn + string) tok url e :
  CredentialRead env r tok url -> CredentialFailure env r e -> False.
Proof.
  intros Hread Hfail.
  destruct Hread as [out parsed res a i Er Hp Hres Htok Hurl].
  destruct Hfail as [e Er' | out' e Er' Hp' | out' parsed' e Er' Hp' Hres'
                     | out' parsed' res' e Er' Hp' Hres' Htok']; congruence.
Qed.

Lemma requests_no_console (reqs : list Event) :
  forallb is_request reqs = true -> filter is_console reqs = [].
Proof.
  induction reqs as [| ev reqs IH]; simpl.
  - reflexivity.
  - intros H. apply andb_prop in H. destruct H as [Hev Hrest].
    destruct ev; simpl in *; try discriminate; now apply IH.
Qed.

Lemma requests_no_exec (reqs : list Event) :
  forallb is_request reqs = true -> filter is_exec reqs = [].
Proof.
  induction reqs as [| ev reqs IH]; simpl.
  - reflexivity.
  - intros H. apply andb_prop in H. destruct H as [Hev Hrest].
    destruct ev; simpl in *; try discriminate; now apply IH.
Qed.

Lemma requests_no_prompt (reqs : list Event) :
  forallb is_request reqs = true -> existsb is_org_prompt reqs = false.
Proof.
  induction reqs as [| ev reqs IH]; simpl.
  - reflexivity.
  - intros H. apply andb_prop in H. destruct H as [Hev Hrest].
    destruct ev; simpl in *; try discriminate; now apply IH.
Qed.

Lemma status_line_console (f : string) (o : Outcome) :
  is_console (status_line f o) = true
  /\ is_exec (status_line f o) = false
  /\ is_org_prompt (status_line f o) = false.
Proof. destruct o; repeat split; reflexivity. Qed.

(** An attempt prints exactly one console line, its status line. *)
Lemma attempt_one_status_line tok url (a : Attempt) :
  ActivationLog (at_flow a) tok url (at_requests a) (at_outcome a) ->
  filter is_console (attempt_log a) = [status_line (at_flow a) (at_outcome a)].
Proof.
  intros H. unfold attempt_log. rewrite filter_app.
  rewrite (requests_no_console _ (ActivationLog_requests _ _ _ _ _ H)).
  simpl. now destruct (at_outcome a).
Qed.

Lemma attempts_no_exec tok url flows attempts :
  attempts_of tok url flows attempts ->
  filter is_exec (concat (map attempt_log attempts)) = [].
Proof.
  intros [_ Hall]. induction Hall as [| a attempts Ha _ IH]; simpl.
  - reflexivity.
  - rewrite filter_app, IH, app_nil_r. unfold attempt_log. rewrite filter_app.
    rewrite (requests_no_exec _ (ActivationLog_requests _ _ _ _ _ Ha)).
    simpl. now destruct (at_outcome a).
Qed.

Lemma attempts_no_prompt tok url flows attempts :
  attempts_of tok url flows attempts ->
  existsb is_org_prompt (concat (map attempt_log attempts)) = false.
Proof.
  intros [_ Hall]. induction Hall as [| a attempts Ha _ IH]; simpl.
  - reflexivity.
  - rewrite existsb_app, IH, orb_false_r. unfold attempt_log. rewrite existsb_app.
    rewrite (requests_no_prompt _ (ActivationLog_requests _ _ _ _ _ Ha)).
    simpl. now destruct (at_outcome a).
Qed.

Lemma visits_no_prompt env orgs flows visits :
  visits_of env orgs flows visits ->
  existsb is_org_prompt (concat (map visit_log visits)) = false.
Proof.
  intros [_ Hall]. induction Hall as [| v visits (tok & url & _ & Hatt) _ IH]; simpl.
  - reflexivity.
  - rewrite existsb_app, IH, orb_false_r.
    exact (attempts_no_prompt _ _ _ _ Hatt).
Qed.

(** C6, as stated, fails: with Org1 and Org2 selected and two flow names
    entered, a credential failure for Org2 ends the run after Org1's two
    attempts, not after four. *)
Lemma credential_failure_cuts_the_loop_short :
  let run := activationLoop Sample.env_org2_logged_out
               [JStr "Org1"; JStr "Org2"] ["FlowA"; "FlowB"] [] in
  result_of run = Exit 1
  /\ filter (String.prefix "SELECT Id, VersionNumber FROM Flow") (queries_of (log_of run))
     = [toolingQuery "FlowA"; toolingQuery "FlowB"]
  /\ length [JStr "Org1"; JStr "Org2"] * length ["FlowA"; "FlowB"] = 4.
Proof.
  cbv zeta. repeat split; reflexivity.
Qed.

(** C6, amended.  When the credential of every selected org resolves, the
    loop takes the selected orgs in order; each org's turn prints the header
    line, runs the credential command exactly once, then attempts every flow
    name in the order entered with that credential, one attempt finishing
    with its single status line before the next starts; in all
    [|orgs| * |flows|] attempts. *)
Theorem loop_visits_orgs_then_flows (env : Env) (orgs : list JsVal)
    (flows : list string) (tr : Log) :
  (forall org, In org orgs ->
     forall log, exists tok url,
       CredentialRead env (execSync env log (displayCommand org)) tok url) ->
  exists visits,
    activationLoop env orgs flows tr
      = (Val tt, (tr ++ concat (map visit_log visits))%list)
    /\ map ov_org visits = orgs
    /\ Forall (fun v =>
                 map at_flow (ov_attempts v) = flows
                 /\ length (filter is_exec (visit_log v)) = 1
                 /\ exists tok url,
                      CredentialRead env (inr (ov_output v)) tok url
                      /\ Forall (fun a =>
                                   ActivationLog (at_flow a) tok url
                                     (at_requests a) (at_outcome a)
                                   /\ filter is_console (attempt_log a)
                                      = [status_line (at_flow a) (at_outcome a)])
                                (ov_attempts v))
              visits
    /\ length (all_attempts visits) = length orgs * length flows.
Proof.
  intros Hcred.
  destruct (activationLoop_log env orgs flows tr)
    as (visits & [(Hrun & Hvis)
                 | (pre & org & post & r & e & Horgs & _ & (log & Hr) & Hfail & _)]).
  - exists visits. split; [ exact Hrun | ].
    split; [ apply Hvis | ].
    split; [ | exact (visits_attempts_length _ _ _ _ Hvis) ].
    destruct Hvis as [_ Hall].
    eapply Forall_impl; [ | exact Hall ].
    intros v (tok & url & Hread & Hatt).
    split; [ apply Hatt | ].
    split.
    { unfold visit_log. simpl. now rewrite (attempts_no_exec _ _ _ _ Hatt). }
    exists tok, url. split; [ exact Hread | ].
    destruct Hatt as [_ Hlogs].
    eapply Forall_impl; [ | exact Hlogs ].
    intros a Ha. split; [ exact Ha | exact (attempt_one_status_line _ _ _ Ha) ].
  - exfalso.
    destruct (Hcred org) with (log := log) as (tok & url & Hread).
    { subst orgs. apply in_or_app. right. left. reflexivity. }
    rewrite <- Hr in Hread.
    exact (credential_read_not_failure _ _ _ _ _ Hread Hfail).
Qed.

Lemma loop_visits_orgs_then_flows_witness :
  exists visits,
    activationLoop Sample.env [JStr "Org1"; JStr "Org2"] ["FlowA"; "FlowB"] []
      = (Val tt, ([] ++ concat (map visit_log visits))%list)
    /\ map ov_org visits = [JStr "Org1"; JStr "Org2"]
    /\ length (all_attempts visits) = 4.
Proof.
  destruct (loop_visits_orgs_then_flows Sample.env
              [JStr "Org1"; JStr "Org2"] ["FlowA"; "FlowB"] [])
    as (visits & Hrun & Horgs & _ & Hlen).
  - intros org [<- | [<- | []]] log.
    + exists (JStr Sample.org1_token), (JStr Sample.org1_url).
      eapply credential_read; reflexivity.
    + exists (JStr Sample.org2_token), (JStr Sample.org2_url).
      eapply credential_read; reflexivity.
  - exists visits. repeat split; assumption.
Defined.

(** The end-to-end scenario: FlowA and FlowB entered, Org1 and Org2
    selected, FlowB missing from Org1.  The console shows, after the banner
    and the source line, each org's header followed by its two status lines,
    and the script ends normally. *)
Example two_orgs_two_flows :
  result_of (program Sample.env []) = Val tt
  /\ filter is_console (log_of (program Sample.env []))
     = [ELog "Flow Activator";
        ELog sourceLine;
        orgHeader (JStr "Org1");
        status_line "FlowA" (Activated (JNum 3));
        status_line "FlowB" FlowNotFound;
        orgHeader (JStr "Org2");
        status_line "FlowA" (Activated (JNum 3));
        status_line "FlowB" (Activated (JNum 3))].
Proof.
  split; reflexivity.
Qed.

Lemma prologue_log (env : Env) (tr : Log) :
  exists answer pro,
    prologue env tr = (Val answer, (tr ++ pro)%list)
    /\ existsb is_org_prompt pro = false
    /\ existsb is_request pro = false.
Proof.
  unfold prologue, displayAsciiArt, try_catch, bind, figlet, console_log,
    console_error, emit, prompts_flowQuestion, answer.
  destruct (figlet_textSync env tr "Flow Activator") as [e | art];
    eexists _, _; (split; [ norm_log; reflexivity | split; reflexivity ]).
Qed.

(** C7.  A failure of the org-listing command, and a failure to resolve
    the credential of a selected org, each end the whole script at once with
    exit code 1: the log stops at the error line.  For a credential failure
    at an org that follows the orgs [pre], the log is the one of the
    completed turns of [pre] followed by the org's header, its failed
    command and the error line: no request is made for that org or for any
    org after it. *)
Theorem fatal_failures_exit (env : Env) (tr : Log) :
  (forall flowNames log1 r e,
      prologue env tr = (Val (Some flowNames), log1) ->
      r = execSync env log1 listCommand ->
      ListingFailure env r e ->
      program env tr
        = (Exit 1, (log1 ++ [EExec listCommand r;
                             EError ("Error retrieving orgs: " ++ message e)])%list))
  /\ (forall pre org post flowNames log2 log3 r e,
        ReachesLoop env tr (pre ++ org :: post)%list flowNames log2 ->
        activationLoop env pre flowNames log2 = (Val tt, log3) ->
        r = execSync env (log3 ++ [orgHeader org])%list (displayCommand org) ->
        CredentialFailure env r e ->
        program env tr
          = (Exit 1,
             (log3 ++ [orgHeader org; EExec (displayCommand org) r;
                       EError ("Error retrieving org details: " ++ message e)])%list)).
Proof.
  split.
  - intros flowNames log1 r e Hpro Hr Hfail.
    unfold program, try_catch. rewrite main_prologue, Hpro.
    unfold bind at 1. rewrite (getAuthenticatedOrgs_fails env log1 r e Hr Hfail).
    reflexivity.
  - intros pre org post flowNames log2 log3 r e Hreach Hpre Hr Hfail.
    rewrite (program_reaches_loop _ _ _ _ _ Hreach).
    unfold activationLoop. rewrite for_of_app.
    fold (activationLoop env pre flowNames). rewrite Hpre.
    fold (activationLoop env (org :: post) flowNames).
    rewrite activationLoop_cons.
    rewrite (getSfInstance_fails env org _ r e Hr Hfail).
    norm_log. reflexivity.
Qed.

Lemma fatal_failures_exit_witness :
  result_of (program Sample.env_no_cli []) = Exit 1
  /\ result_of (program Sample.env_org2_logged_out []) = Exit 1.
Proof.
  destruct (fatal_failures_exit Sample.env_no_cli []) as [Hlist _].
  destruct (fatal_failures_exit Sample.env_org2_logged_out []) as [_ Hcred].
  split.
  - erewrite Hlist.
    + reflexivity.
    + reflexivity.
    + reflexivity.
    + apply list_command_failed. reflexivity.
  - erewrite (Hcred [JStr "Org1"] (JStr "Org2") [] ["FlowA"; "FlowB"]).
    + reflexivity.
    + eapply reaches_loop; reflexivity.
    + reflexivity.
    + reflexivity.
    + apply display_command_failed. reflexivity.
Defined.

Lemma is_connected_status (org : JsVal) :
  is_connected org = true <-> opt_prop org "connectedStatus" = JStr "Connected".
Proof.
  unfold is_connected.
  destruct (opt_prop org "connectedStatus"); simpl; try (split; discriminate).
  split.
  - intros H. apply String.eqb_eq in H. now subst.
  - intros H. injection H as ->. reflexivity.
Qed.

Lemma filter_records (orgs : list JsVal) (keep : JsVal -> bool) :
  Forall is_record orgs -> Forall is_record (filter keep orgs).
Proof.
  intros H. apply Forall_forall. intros org Hin.
  apply filter_In in Hin. destruct Hin as [Hin _].
  rewrite Forall_forall in H. now apply H.
Qed.

(** C8.  When the listing command returns a list of org records, the org
    directory reader returns exactly those whose connection status is
    ["Connected"], in the listing's order, and the choices put to the
    operator are those orgs' aliases and nothing else: the script shows one
    org prompt, with these choices. *)
Theorem connected_orgs_are_the_choices (env : Env) (tr : Log)
    (flowNames : list string) (log1 : Log) (out : string) (orgs : list JsVal) :
  prologue env tr = (Val (Some flowNames), log1) ->
  execSync env log1 listCommand = inr out ->
  ListingRead env (inr out) orgs ->
  Forall is_record orgs ->
  let connected := filter is_connected orgs in
  getAuthenticatedOrgs env log1
    = (Val connected, (log1 ++ [EExec listCommand (inr out)])%list)
  /\ (forall org, In org connected <->
        In org orgs /\ opt_prop org "connectedStatus" = JStr "Connected")
  /\ exists pro answers post,
       log1 = (tr ++ pro)%list
       /\ log_of (program env tr)
          = (log1 ++ [EExec listCommand (inr out);
                      EPromptOrgs (map choice_of connected) answers] ++ post)%list
       /\ existsb is_org_prompt pro = false
       /\ existsb is_org_prompt post = false.
Proof.
  intros Hpro Hexec Hread Hrec connected.
  pose proof (getAuthenticatedOrgs_ok env log1 out orgs Hexec Hread Hrec) as Hlist.
  split; [ exact Hlist | ].
  split.
  { intros org. subst connected. rewrite filter_In, is_connected_status. reflexivity. }
  destruct (prologue_log env tr) as (answer & pro & Hpro' & Hnoprompt & _).
  rewrite Hpro in Hpro'. injection Hpro' as _ Hlog1.
  exists pro, (operator_orgs env (log1 ++ [EExec listCommand (inr out)])%list
                 (map choice_of connected)).
  set (answers := operator_orgs env _ _).
  set (log2 := (log1 ++ [EExec listCommand (inr out);
                         EPromptOrgs (map choice_of connected) answers])%list).
  assert (Hmain :
            main env tr =
              match confirmation answers with
              | Some true =>
                  (selected <- lift (iterate (selectedOrgs answers)) ;;
                   activationLoop env selected flowNames) log2
              | _ => console_log "Operation cancelled." log2
              end).
  { rewrite main_prologue, Hpro. unfold bind at 1. rewrite Hlist.
    unfold bind at 1. unfold lift at 1.
    rewrite (org_choices_records _ (filter_records orgs is_connected Hrec)).
    unfold bind at 1. unfold prompts_orgQuestions.
    fold connected. fold answers.
    replace ((log1 ++ [EExec listCommand (inr out)]) ++
             [EPromptOrgs (map choice_of connected) answers])%list with log2
      by (subst log2; now rewrite <- app_assoc).
    destruct (confirmation answers) as [[|] |]; reflexivity. }
  unfold program, try_catch. rewrite Hmain.
  destruct (confirmation answers) as [[|] |].
  - unfold bind, lift. destruct (selectedOrgs answers) as [selected |]; simpl iterate.
    + destruct (activationLoop_log env selected flowNames log2)
        as (visits & [(Hrun & Hvis)
                     | (pre & org & post & r & e & _ & Hvis & _ & _ & Hrun)]);
        rewrite Hrun; simpl log_of.
      * exists (concat (map visit_log visits)).
        split; [ exact Hlog1 | ].
        split; [ subst log2; now rewrite <- app_assoc | ].
        split; [ exact Hnoprompt | exact (visits_no_prompt _ _ _ _ Hvis) ].
      * eexists. split; [ exact Hlog1 | ].
        split; [ subst log2; rewrite <- app_assoc; reflexivity | ].
        split; [ exact Hnoprompt | ].
        rewrite existsb_app, (visits_no_prompt _ _ _ _ Hvis). reflexivity.
    + eexists. split; [ exact Hlog1 | ].
      split; [ unfold console_error, emit; simpl log_of; subst log2;
               rewrite <- app_assoc; reflexivity | ].
      split; [ exact Hnoprompt | reflexivity ].
  - eexists. split; [ exact Hlog1 | ].
    split; [ unfold console_log, emit; simpl log_of; subst log2;
             rewrite <- app_assoc; reflexivity | ].
    split; [ exact Hnoprompt | reflexivity ].
  - eexists. split; [ exact Hlog1 | ].
    split; [ unfold console_log, emit; simpl log_of; subst log2;
             rewrite <- app_assoc; reflexivity | ].
    split; [ exact Hnoprompt | reflexivity ].
Qed.

Lemma connected_orgs_are_the_choices_witness :
  getAuthenticatedOrgs Sample.env
    [EFiglet "Flow Activator" (inr "Flow Activator"); ELog "Flow Activator";
     ELog sourceLine; EPromptFlows [EmptyString; "FlowA;FlowB"]]
  = (Val [Sample.org_record "Org1" "Connected"; Sample.org_record "Org2" "Connected"],
     [EFiglet "Flow Activator" (inr "Flow Activator"); ELog "Flow Activator";
      ELog sourceLine; EPromptFlows [EmptyString; "FlowA;FlowB"];
      EExec listCommand (inr "<org list>")]).
Proof.
  destruct (connected_orgs_are_the_choices Sample.env [] ["FlowA"; "FlowB"]
              [EFiglet "Flow Activator" (inr "Flow Activator"); ELog "Flow Activator";
               ELog sourceLine; EPromptFlows [EmptyString; "FlowA;FlowB"]]
              "<org list>" Sample.listed_orgs) as (Hlist & _).
  - reflexivity.
  - reflexivity.
  - eexists _, _, _. repeat split; reflexivity.
  - repeat constructor; eexists; reflexivity.
  - exact Hlist.
Defined.

(** * Further properties of the script *)

(** ** The org listing, in general *)


Lemma readable_get_prop (v : JsVal) (key : string) :
  readable v -> get_prop v key = inr (opt_prop v key).
Proof.
  intros [Hn Hu]. destruct v; try reflexivity; contradiction.
Qed.

Lemma get_prop_readable (v : JsVal) (key : string) (x : JsVal) :
  get_prop v key = inr x -> readable v /\ x = opt_prop v key.
Proof.
  unfold opt_prop. destruct v; simpl; intros H; try discriminate;
    injection H as <-; (split; [ split; discriminate | reflexivity ]).
Qed.

Lemma filter_connected_kept (orgs kept : list JsVal) :
  filter_connected orgs = inr kept ->
  kept = filter is_connected orgs /\ Forall readable orgs.
Proof.
  revert kept. induction orgs as [| org orgs IH]; simpl; intros kept H.
  - injection H as <-. split; constructor.
  - destruct (get_prop org "connectedStatus") as [e | status] eqn:Hst;
      [ discriminate | ].
    destruct (filter_connected orgs) as [e | rest]; [ discriminate | ].
    destruct (IH rest eq_refl) as [-> Hall].
    destruct (get_prop_readable _ _ _ Hst) as [Hread ->].
    injection H as <-. split; [ reflexivity | constructor; assumption ].
Qed.

Lemma org_choices_readable (orgs : list JsVal) :
  Forall readable orgs -> org_choices orgs = inr (map choice_of orgs).
Proof.
  intros H. induction H as [| org orgs Hread _ IH]; simpl.
  - reflexivity.
  - rewrite (readable_get_prop _ _ Hread), IH. reflexivity.
Qed.

Lemma filter_readable (orgs : list JsVal) (keep : JsVal -> bool) :
  Forall readable orgs -> Forall readable (filter keep orgs).
Proof.
  intros H. apply Forall_forall. intros org Hin.
  apply filter_In in Hin. destruct Hin as [Hin _].
  rewrite Forall_forall in H. now apply H.
Qed.

(** Every run of the org listing: either it returns, after the one
    command, the connected entries of the array it read, or it fails in one
    of the listed ways and exits with code 1 after the error line. *)
Lemma getAuthenticatedOrgs_cases (env : Env) (tr : Log) :
  (exists out listed,
      execSync env tr listCommand = inr out
      /\ Forall readable listed
      /\ getAuthenticatedOrgs env tr
         = (Val (filter is_connected listed),
            (tr ++ [EExec listCommand (inr out)])%list))
  \/ (exists e,
        ListingFailure env (execSync env tr listCommand) e
        /\ getAuthenticatedOrgs env tr
           = (Exit 1,
              (tr ++ [EExec listCommand (execSync env tr listCommand);
                      EError ("Error retrieving orgs: " ++ message e)])%list)).
Proof.
  assert (Hfail : forall e, ListingFailure env (execSync env tr listCommand) e ->
            exists e0,
              ListingFailure env (execSync env tr listCommand) e0
              /\ getAuthenticatedOrgs env tr
                 = (Exit 1,
                    (tr ++ [EExec listCommand (execSync env tr listCommand);
                            EError ("Error retrieving orgs: " ++ message e0)])%list)).
  { intros e He. exists e. split; [ exact He | ].
    now apply getAuthenticatedOrgs_fails. }
  destruct (execSync env tr listCommand) as [e | out] eqn:Hexec.
  { right. apply (Hfail e). now apply list_command_failed. }
  destruct (JSON_parse env out) as [e | parsed] eqn:Hp.
  { right. apply (Hfail e). eapply list_output_unparsable; eauto. }
  destruct (get_prop parsed "result") as [e | res] eqn:Hres.
  { right. apply (Hfail e). eapply list_document_null; eauto. }
  destruct (get_prop res "nonScratchOrgs") as [e | field] eqn:Hfield.
  { right. apply (Hfail e). eapply list_result_missing; eauto. }
  destruct (array_filter_connected (if strict_eq field JUndefined then JArr [] else field))
    as [e | kept] eqn:Hfilter.
  { right. apply (Hfail e). eapply list_orgs_unreadable; eauto. }
  left.
  assert (Hkept : exists listed,
             filter_connected listed = inr kept).
  { destruct field; simpl in Hfilter; try discriminate.
    - exists []. exact Hfilter.
    - exists elems. exact Hfilter. }
  destruct Hkept as (listed & Hlisted).
  destruct (filter_connected_kept _ _ Hlisted) as [-> Hread].
  exists out, listed. split; [ reflexivity | split; [ exact Hread | ] ].
  run_command. unfold listCommand in Hexec. rewrite Hexec. cbv beta iota zeta.
  rewrite Hp. cbv beta iota zeta. rewrite Hres. cbv beta iota zeta.
  rewrite Hfield. cbv beta iota zeta. rewrite Hfilter. reflexivity.
Qed.

(** ** Every run of the script *)

Lemma program_run (env : Env) (tr : Log) : ProgramRun env tr (program env tr).
Proof.
  pose proof (prologue_run env tr) as Hpro. cbv zeta in Hpro.
  set (log1 := (_ ++ [EPromptFlows _])%list) in Hpro.
  unfold program, try_catch. rewrite main_prologue.
  destruct (prompts_text _ _ _) as [flowNames |] eqn:Hnames; rewrite Hpro.
  2:{ apply run_cancelled. exact Hpro. }
  unfold bind at 1.
  destruct (getAuthenticatedOrgs_cases env log1)
    as [(out & listed & Hexec & Hread & Hlist) | (e & Hfail & Hlist)];
    rewrite Hlist.
  2:{ eapply run_listing_failed; eauto. }
  set (orgs := filter is_connected listed) in *.
  unfold bind at 1. unfold lift at 1.
  rewrite (org_choices_readable orgs (filter_readable _ _ Hread)).
  unfold bind at 1. unfold prompts_orgQuestions.
  set (answers := operator_orgs env _ _).
  destruct (confirmation answers) as [[|] |] eqn:Hconf.
  - unfold bind, lift.
    destruct (selectedOrgs answers) as [selected |] eqn:Hsel; simpl iterate.
    + assert (Hreach : ReachesLoop env tr selected flowNames
                (log1 ++ [EExec listCommand (inr out);
                          EPromptOrgs (map choice_of orgs) answers])%list).
      { eapply reaches_loop; eauto.
        apply org_choices_readable, filter_readable, Hread. }
      norm_log.
      destruct (activationLoop env selected flowNames _) as [[[] | e | c] log] eqn:Hrun.
      * rewrite <- Hrun. apply run_loop. exact Hreach.
      * exfalso. exact (activationLoop_no_throw _ _ _ _ _ _ Hrun).
      * rewrite <- Hrun. apply run_loop. exact Hreach.
    + unfold console_error, emit. cbn [message TypeError]. norm_log.
      eapply run_without_selection; eauto.
  - unfold console_log, emit. norm_log.
    eapply run_not_confirmed; eauto. rewrite Hconf. discriminate.
  - unfold console_log, emit. norm_log.
    eapply run_not_confirmed; eauto. rewrite Hconf. discriminate.
Qed.

Lemma activationLoop_extends (env : Env) orgs flows (tr : Log) :
  exists evs, log_of (activationLoop env orgs flows tr) = (tr ++ evs)%list.
Proof.
  destruct (activationLoop_log env orgs flows tr)
    as (visits & [(Hrun & _) | (pre & org & post & r & e & _ & _ & _ & _ & Hrun)]);
    rewrite Hrun; eexists; reflexivity.
Qed.

Lemma ProgramRun_extends (env : Env) (tr : Log) (run : Res unit * Log) answer log1 :
  ProgramRun env tr run ->
  prologue env tr = (Val answer, log1) ->
  exists post, log_of run = (log1 ++ post)%list.
Proof.
  intros Hrun Hpro.
  destruct Hrun as [l Hp | names l r e Hp _ _ | names l out orgs answers Hp _ _ _
                    | names l out orgs answers Hp _ _ _ _ | selected names log2 Hreach].
  1-4: rewrite Hp in Hpro; injection Hpro as _ <-; eexists; reflexivity.
  destruct Hreach as [names l out orgs choices answers selected Hp _ _ _ _ _].
  rewrite Hp in Hpro. injection Hpro as _ <-.
  destruct (activationLoop_extends env selected names
              (l ++ [EExec listCommand (inr out); EPromptOrgs choices answers])%list)
    as (evs & Hevs).
  rewrite Hevs. eexists. rewrite <- app_assoc. reflexivity.
Qed.

(** X1.  A banner that cannot be rendered does not stop the script: the
    failure goes to the error stream as one line, and the script goes on
    with the source line and the flow-name prompt. *)
Theorem banner_failure_is_not_fatal (env : Env) (tr : Log) (e : Exn) :
  figlet_textSync env tr "Flow Activator" = inl e ->
  let log0 := (tr ++ [EFiglet "Flow Activator" (inl e);
                      EError ("Error generating ASCII art: " ++ message e);
                      ELog sourceLine])%list in
  displayAsciiArt env "Flow Activator" tr
    = (Val tt,
       (tr ++ [EFiglet "Flow Activator" (inl e);
               EError ("Error generating ASCII art: " ++ message e)])%list)
  /\ exists post,
       log_of (program env tr)
       = (log0 ++ EPromptFlows (operator_flows env log0) :: post)%list.
Proof.
  intros Hfig log0. split.
  - rewrite displayAsciiArt_log, Hfig. reflexivity.
  - pose proof (prologue_run env tr) as Hpro. cbv zeta in Hpro.
    rewrite Hfig in Hpro. cbn [bannerLine] in Hpro. fold log0 in Hpro.
    destruct (ProgramRun_extends env tr _ _ _ (program_run env tr) Hpro) as (post & Hpost).
    exists post. rewrite Hpost. rewrite <- app_assoc. reflexivity.
Qed.

Lemma prompts_text_all_empty (attempts : list string) :
  Forall (fun s => s = EmptyString) attempts ->
  prompts_text flowQuestion_validate flowQuestion_format attempts = None.
Proof.
  intros H. induction H as [| s rest -> _ IH]; simpl.
  - reflexivity.
  - exact IH.
Qed.

(** X2.  When the operator leaves the flow-name prompt without ever
    submitting a non-empty input, the script prints the cancellation line
    and ends normally; it runs no command, sends no request and never shows
    the org prompt. *)
Theorem cancelled_flow_prompt_runs_nothing (env : Env) (tr : Log) :
  let r := figlet_textSync env tr "Flow Activator" in
  let log0 := (tr ++ [EFiglet "Flow Activator" r; bannerLine r; ELog sourceLine])%list in
  Forall (fun s => s = EmptyString) (operator_flows env log0) ->
  program env tr
    = (Val tt, (log0 ++ [EPromptFlows (operator_flows env log0); cancelledLine])%list)
  /\ forall ev,
       In ev [EFiglet "Flow Activator" r; bannerLine r; ELog sourceLine;
              EPromptFlows (operator_flows env log0); cancelledLine] ->
       is_exec ev = false /\ is_request ev = false /\ is_org_prompt ev = false.
Proof.
  intros r log0 Hempty. split.
  - pose proof (prologue_run env tr) as Hpro. cbv zeta in Hpro.
    fold r in Hpro. fold log0 in Hpro.
    rewrite (prompts_text_all_empty _ Hempty) in Hpro.
    unfold program, try_catch. rewrite main_prologue, Hpro.
    unfold console_log, emit, cancelledLine. norm_log. reflexivity.
  - intros ev Hin. simpl in Hin.
    destruct Hin as [<- | [<- | [<- | [<- | [<- | []]]]]];
      try (repeat split; reflexivity).
    destruct r; repeat split; reflexivity.
Qed.

Lemma cancelled_flow_prompt_runs_nothing_witness :
  program Sample2.env_cancelled []
  = (Val tt,
     [EFiglet "Flow Activator" (inr "Flow Activator"); ELog "Flow Activator";
      ELog sourceLine; EPromptFlows [EmptyString; EmptyString]; cancelledLine]).
Proof.
  destruct (cancelled_flow_prompt_runs_nothing Sample2.env_cancelled []) as [Hrun _].
  - repeat constructor.
  - exact Hrun.
Defined.

Lemma banner_failure_is_not_fatal_witness :
  exists post,
    log_of (program
              {| figlet_textSync := fun _ _ => inl (mkExn "font not found");
                 execSync := execSync Sample.env;
                 JSON_parse := JSON_parse Sample.env;
                 axios_get := axios_get Sample.env;
                 axios_patch := axios_patch Sample.env;
                 operator_flows := operator_flows Sample.env;
                 operator_orgs := operator_orgs Sample.env |} [])
    = ([EFiglet "Flow Activator" (inl (mkExn "font not found"));
        EError "Error generating ASCII art: font not found";
        ELog sourceLine]
         ++ EPromptFlows [EmptyString; "FlowA;FlowB"] :: post)%list.
Proof.
  destruct (banner_failure_is_not_fatal
              {| figlet_textSync := fun _ _ => inl (mkExn "font not found");
                 execSync := execSync Sample.env;
                 JSON_parse := JSON_parse Sample.env;
                 axios_get := axios_get Sample.env;
                 axios_patch := axios_patch Sample.env;
                 operator_flows := operator_flows Sample.env;
                 operator_orgs := operator_orgs Sample.env |}
              [] (mkExn "font not found") eq_refl) as [_ Hpost].
  exact Hpost.
Defined.

(** What the org listing returns, whenever it returns. *)
Lemma getAuthenticatedOrgs_returns (env : Env) (tr : Log) orgs log :
  getAuthenticatedOrgs env tr = (Val orgs, log) ->
  Forall readable orgs
  /\ Forall (fun org => is_connected org = true) orgs
  /\ exists out,
       execSync env tr listCommand = inr out
       /\ log = (tr ++ [EExec listCommand (inr out)])%list.
Proof.
  intros Hrun.
  destruct (getAuthenticatedOrgs_cases env tr)
    as [(out & listed & Hexec & Hread & Hlist) | (e & _ & Hlist)];
    rewrite Hlist in Hrun; [ | discriminate ].
  injection Hrun as <- <-.
  split; [ apply filter_readable, Hread | ].
  split; [ | exists out; split; [ exact Hexec | reflexivity ] ].
  apply Forall_forall. intros org Hin. apply filter_In in Hin. apply Hin.
Qed.

(** X3.  When the orgs are listed and the operator does not confirm
    (answers no, or leaves the org prompt), the script prints the
    cancellation line and ends normally: a selection made before is dropped,
    no credential is resolved and no request is sent. *)
Theorem unconfirmed_selection_runs_nothing (env : Env) (tr : Log)
    (flowNames : list string) (log1 logA : Log) (orgs : list JsVal) :
  prologue env tr = (Val (Some flowNames), log1) ->
  getAuthenticatedOrgs env log1 = (Val orgs, logA) ->
  let answers := operator_orgs env logA (map choice_of orgs) in
  confirmation answers <> Some true ->
  program env tr
    = (Val tt, (logA ++ [EPromptOrgs (map choice_of orgs) answers; cancelledLine])%list).
Proof.
  intros Hpro Hlist answers Hconf.
  destruct (getAuthenticatedOrgs_returns _ _ _ _ Hlist) as (Hread & _ & _).
  unfold program, try_catch. rewrite main_prologue, Hpro.
  unfold bind at 1. rewrite Hlist.
  unfold bind at 1. unfold lift at 1. rewrite (org_choices_readable _ Hread).
  unfold bind at 1. unfold prompts_orgQuestions. fold answers.
  destruct (confirmation answers) as [[|] |].
  - now elim Hconf.
  - unfold console_log, emit, cancelledLine. norm_log. reflexivity.
  - unfold console_log, emit, cancelledLine. norm_log. reflexivity.
Qed.

Lemma unconfirmed_selection_runs_nothing_witness :
  program Sample2.env_declined []
  = (Val tt,
     [EFiglet "Flow Activator" (inr "Flow Activator"); ELog "Flow Activator";
      ELog sourceLine; EPromptFlows [EmptyString; "FlowA;FlowB"];
      EExec listCommand (inr "<org list>");
      EPromptOrgs [mkChoice (JStr "Org1") (JStr "Org1");
                   mkChoice (JStr "Org2") (JStr "Org2")]
        (mkOrgAnswers (Some [JStr "Org1"; JStr "Org2"]) (Some false));
      cancelledLine]).
Proof.
  pose proof (unconfirmed_selection_runs_nothing Sample2.env_declined []
                ["FlowA"; "FlowB"]
                [EFiglet "Flow Activator" (inr "Flow Activator"); ELog "Flow Activator";
                 ELog sourceLine; EPromptFlows [EmptyString; "FlowA;FlowB"]]
                [EFiglet "Flow Activator" (inr "Flow Activator"); ELog "Flow Activator";
                 ELog sourceLine; EPromptFlows [EmptyString; "FlowA;FlowB"];
                 EExec listCommand (inr "<org list>")]
                [Sample.org_record "Org1" "Connected"; Sample.org_record "Org2" "Connected"]
                eq_refl eq_refl) as H.
  cbv zeta in H. apply H. discriminate.
Defined.

(** X4.  The script never ends with an uncaught error: it either ends
    normally, or exits with code 1, and then the last thing it did was to
    run an [sfdx] command and print an error line. *)
Theorem program_ends_normally_or_exits_1 (env : Env) (tr : Log) :
  result_of (program env tr) = Val tt
  \/ (result_of (program env tr) = Exit 1
      /\ exists pre command r line,
           log_of (program env tr)
           = (pre ++ [EExec command r; EError line])%list).
Proof.
  destruct (program_run env tr)
    as [l Hp | names l r e Hp _ _ | names l out orgs answers Hp _ _ _
        | names l out orgs answers Hp _ _ _ _ | selected names log2 Hreach].
  - left. reflexivity.
  - right. split; [ reflexivity | ]. eexists l, _, _, _. reflexivity.
  - left. reflexivity.
  - left. reflexivity.
  - destruct (activationLoop_log env selected names log2)
      as (visits & [(Hrun & _) | (pre & org & post & r & e & _ & _ & _ & _ & Hrun)]);
      rewrite Hrun.
    + left. reflexivity.
    + right. split; [ reflexivity | ].
      exists (log2 ++ concat (map visit_log visits) ++ [orgHeader org])%list.
      eexists _, _, _. simpl log_of. rewrite <- !app_assoc. reflexivity.
Qed.

(** X5.  Whenever the org directory reader returns, it has run the listing
    command exactly once, every org it returns has the connection status
    ["Connected"], and turning the orgs into prompt choices cannot throw: the
    choices are the orgs' aliases, in order. *)
Theorem listed_orgs_become_choices (env : Env) (tr : Log)
    (orgs : list JsVal) (log : Log) :
  getAuthenticatedOrgs env tr = (Val orgs, log) ->
  Forall (fun org => opt_prop org "connectedStatus" = JStr "Connected") orgs
  /\ org_choices orgs
     = inr (map (fun org => mkChoice (opt_prop org "alias") (opt_prop org "alias")) orgs)
  /\ exists out, log = (tr ++ [EExec listCommand (inr out)])%list.
Proof.
  intros Hrun.
  destruct (getAuthenticatedOrgs_returns _ _ _ _ Hrun) as (Hread & Hconn & out & _ & Hlog).
  split; [ | split ].
  - eapply Forall_impl; [ | exact Hconn ]. intros org. apply is_connected_status.
  - apply org_choices_readable, Hread.
  - exists out. exact Hlog.
Qed.

Lemma listed_orgs_become_choices_witness :
  org_choices [Sample.org_record "Org1" "Connected"; Sample.org_record "Org2" "Connected"]
  = inr [mkChoice (JStr "Org1") (JStr "Org1"); mkChoice (JStr "Org2") (JStr "Org2")].
Proof.
  destruct (listed_orgs_become_choices Sample.env []
              [Sample.org_record "Org1" "Connected"; Sample.org_record "Org2" "Connected"]
              [EExec listCommand (inr "<org list>")] eq_refl) as (_ & Hchoices & _).
  exact Hchoices.
Defined.

(** ** Credentials and listings with missing parts *)

Lemma activation_first_request (env : Env) (f : string) (tok url : JsVal) (tr : Log) :
  exists r evs,
    log_of (activateLatestFlow env f tok url tr)
    = (tr ++ versionLookup f tok url r :: evs)%list.
Proof.
  destruct (activateLatestFlow_log env f tok url tr) as (reqs & o & Hrun & Hlog).
  rewrite Hrun. simpl log_of.
  destruct Hlog; eexists _, _; reflexivity.
Qed.

(** X6.  A display output whose [result] lacks [accessToken] or
    [instanceUrl] is not a failure: the credential resolver returns
    [undefined] in place of the missing part, and an activation made with it
    sends its first request with the header [Authorization: Bearer undefined]. *)
Theorem credential_fields_may_be_missing (env : Env) (orgAlias : JsVal) (tr : Log)
    (out : string) (parsed res : JsVal) :
  execSync env tr (displayCommand orgAlias) = inr out ->
  JSON_parse env out = inr parsed ->
  get_prop parsed "result" = inr res ->
  readable res ->
  getSfInstance env orgAlias tr
    = (Val (opt_prop res "accessToken", opt_prop res "instanceUrl"),
       (tr ++ [EExec (displayCommand orgAlias) (inr out)])%list)
  /\ (opt_prop res "accessToken" = JUndefined ->
      forall f tr', exists r evs,
        log_of (activateLatestFlow env f (opt_prop res "accessToken")
                  (opt_prop res "instanceUrl") tr')
        = (tr' ++ EGet (queryUrl (opt_prop res "instanceUrl"))
                    {| Authorization := "Bearer undefined";
                       Content_Type := "application/json" |}
                    (toolingQuery f) r :: evs)%list).
Proof.
  intros Hexec Hp Hres Hread. split.
  - apply getSfInstance_ok; [ exact Hexec | ].
    eapply credential_read; eauto using readable_get_prop.
  - intros Htok f tr'.
    destruct (activation_first_request env f (opt_prop res "accessToken")
                (opt_prop res "instanceUrl") tr') as (r & evs & Hlog).
    exists r, evs. rewrite Hlog. rewrite Htok. reflexivity.
Qed.

Lemma credential_fields_may_be_missing_witness :
  getSfInstance Sample2.env_partial_output (JStr "Org1") []
  = (Val (JUndefined, JStr Sample.org1_url),
     [EExec (displayCommand (JStr "Org1")) (inr "<Org1 display>")]).
Proof.
  destruct (credential_fields_may_be_missing Sample2.env_partial_output (JStr "Org1") []
              "<Org1 display>"
              (JObj [("status", JNum 0);
                     ("result", JObj [("instanceUrl", JStr Sample.org1_url)])])
              (JObj [("instanceUrl", JStr Sample.org1_url)])) as [Hrun _].
  - reflexivity.
  - reflexivity.
  - reflexivity.
  - split; discriminate.
  - exact Hrun.
Defined.

(** X7.  A listing whose [result] has no [nonScratchOrgs] reads as an
    empty list of orgs, without an error; one whose [nonScratchOrgs] is
    [null] is a fatal failure. *)
Theorem missing_org_list_reads_as_empty (env : Env) (tr : Log)
    (out : string) (parsed res field : JsVal) :
  execSync env tr listCommand = inr out ->
  JSON_parse env out = inr parsed ->
  get_prop parsed "result" = inr res ->
  get_prop res "nonScratchOrgs" = inr field ->
  (field = JUndefined ->
   getAuthenticatedOrgs env tr
     = (Val [], (tr ++ [EExec listCommand (inr out)])%list))
  /\ (field = JNull ->
      exists e,
        getAuthenticatedOrgs env tr
          = (Exit 1, (tr ++ [EExec listCommand (inr out);
                             EError ("Error retrieving orgs: " ++ message e)])%list)).
Proof.
  intros Hexec Hp Hres Hfield. split; intros ->.
  - run_command. unfold listCommand in Hexec. rewrite Hexec. cbv beta iota zeta.
    rewrite Hp. cbv beta iota zeta. rewrite Hres. cbv beta iota zeta.
    rewrite Hfield. reflexivity.
  - eexists. rewrite <- Hexec. apply getAuthenticatedOrgs_fails; [ reflexivity | ].
    rewrite Hexec. eapply list_orgs_unreadable; eauto. reflexivity.
Qed.

Lemma missing_org_list_reads_as_empty_witness :
  getAuthenticatedOrgs Sample2.env_partial_output []
  = (Val [], [EExec listCommand (inr "<org list>")]).
Proof.
  destruct (missing_org_list_reads_as_empty Sample2.env_partial_output []
              "<org list>"
              (JObj [("status", JNum 0); ("result", JObj [("scratchOrgs", JArr [])])])
              (JObj [("scratchOrgs", JArr [])]) JUndefined) as [Hrun _].
  - reflexivity.
  - reflexivity.
  - reflexivity.
  - reflexivity.
  - apply Hrun. reflexivity.
Defined.

(** ** A confirmed run, end to end *)





(** ** One activation: what its log tells *)

(** X9.  The success line is printed only after all four requests were
    answered: both lookups found a record, the patch was accepted, and the
    verification response's first record has an [ActiveVersionId] strictly
    equal to the [Id] of the version found at step 1, whose [VersionNumber]
    is the one the line shows. *)
Theorem success_line_means_patched_and_verified (env : Env) (f : string)
    (tok url : JsVal) (tr : Log) (reqs : list Event) (n : JsVal) :
  activateLatestFlow env f tok url tr
    = (Val tt, (tr ++ reqs ++ [status_line f (Activated n)])%list) ->
  exists d1 rec1 d2 rec2 p d4 rec4,
    reqs = [versionLookup f tok url (inr d1);
            definitionLookup f tok url (inr d2);
            activationPatch tok url (opt_prop rec2 "Id")
              (opt_prop rec1 "VersionNumber") (inr p);
            verificationLookup tok url (opt_prop rec2 "Id") (inr d4)]
    /\ finds d1 rec1 /\ finds d2 rec2 /\ first_record d4 = inr rec4
    /\ strict_eq (opt_prop rec4 "ActiveVersionId") (opt_prop rec1 "Id") = true
    /\ status_line f (Activated n)
       = status_line f (Activated (opt_prop rec1 "VersionNumber")).
Proof.
  intros Hrun.
  destruct (activateLatestFlow_log env f tok url tr) as (reqs' & o & Hrun' & Hlog).
  rewrite Hrun in Hrun'. injection Hrun' as Heq.
  apply app_inv_head in Heq. apply app_inj_tail in Heq. destruct Heq as [-> Hline].
  pose proof (status_line_kind f (Activated n) o Hline) as Hkind.
  destruct Hlog; simpl in Hkind; try discriminate Hkind.
  destruct (strict_eq (opt_prop rec4 "ActiveVersionId") (opt_prop rec1 "Id")) eqn:Hs;
    simpl in Hkind; try discriminate Hkind.
  exists d1, rec1, d2, rec2, p, d4, rec4.
  repeat split; try assumption; reflexivity.
Qed.

Lemma success_line_means_patched_and_verified_witness :
  exists d1 rec1 d2 rec2 p d4 rec4,
    [versionLookup "FlowA" (JStr Sample.org1_token) (JStr Sample.org1_url)
       (inr (Sample.records [JObj [("Id", Sample.version_id "FlowA");
                                   ("VersionNumber", JNum 3)]]));
     definitionLookup "FlowA" (JStr Sample.org1_token) (JStr Sample.org1_url)
       (inr (Sample.records [JObj [("Id", Sample.definition_id "FlowA")]]));
     activationPatch (JStr Sample.org1_token) (JStr Sample.org1_url)
       (Sample.definition_id "FlowA") (JNum 3) (inr (JStr EmptyString));
     verificationLookup (JStr Sample.org1_token) (JStr Sample.org1_url)
       (Sample.definition_id "FlowA")
       (inr (Sample.records [JObj [("ActiveVersionId", Sample.version_id "FlowA")]]))]
    = [versionLookup "FlowA" (JStr Sample.org1_token) (JStr Sample.org1_url) (inr d1);
       definitionLookup "FlowA" (JStr Sample.org1_token) (JStr Sample.org1_url) (inr d2);
       activationPatch (JStr Sample.org1_token) (JStr Sample.org1_url)
         (opt_prop rec2 "Id") (opt_prop rec1 "VersionNumber") (inr p);
       verificationLookup (JStr Sample.org1_token) (JStr Sample.org1_url)
         (opt_prop rec2 "Id") (inr d4)]
    /\ finds d1 rec1 /\ finds d2 rec2 /\ first_record d4 = inr rec4
    /\ strict_eq (opt_prop rec4 "ActiveVersionId") (opt_prop rec1 "Id") = true
    /\ status_line "FlowA" (Activated (JNum 3))
       = status_line "FlowA" (Activated (opt_prop rec1 "VersionNumber")).
Proof.
  apply (success_line_means_patched_and_verified Sample.env "FlowA"
           (JStr Sample.org1_token) (JStr Sample.org1_url) []).
  reflexivity.
Defined.

Lemma string_app_assoc (a b c : string) : (a ++ b) ++ c = a ++ (b ++ c).
Proof.
  induction a as [| x a IH]; simpl; [ reflexivity | now rewrite IH ].
Qed.

Lemma prefix_app (a b : string) : String.prefix a (a ++ b) = true.
Proof.
  induction a as [| x a IH]; simpl.
  - now destruct b.
  - destruct (ascii_dec x x) as [_ | Hne]; [ exact IH | now elim Hne ].
Qed.

Lemma queryUrl_root (url : JsVal) : String.prefix (toolingRoot url) (queryUrl url) = true.
Proof.
  unfold queryUrl, toolingRoot.
  change "/services/data/v59.0/tooling/query"
    with ("/services/data/v59.0/tooling/" ++ "query").
  rewrite <- string_app_assoc. apply prefix_app.
Qed.

Lemma definitionUrl_root (url id : JsVal) :
  String.prefix (toolingRoot url) (definitionUrl url id) = true.
Proof.
  unfold definitionUrl, toolingRoot.
  change ("/services/data/v59.0/tooling/sobjects/FlowDefinition/" ++ toStr id)
    with ("/services/data/v59.0/tooling/" ++ ("sobjects/FlowDefinition/" ++ toStr id)).
  rewrite <- string_app_assoc. apply prefix_app.
Qed.

(** X10.  Every request of an activation carries the credential it was
    given, as [Authorization: Bearer <token>] with the JSON content type, and
    goes to an address under the tooling API of the instance it was given. *)
Theorem every_request_carries_the_credential (env : Env) (f : string)
    (tok url : JsVal) (tr : Log) :
  exists reqs o,
    activateLatestFlow env f tok url tr
      = (Val tt, (tr ++ reqs ++ [status_line f o])%list)
    /\ forall ev, In ev reqs ->
         headers_of ev
         = Some {| Authorization := "Bearer " ++ toStr tok;
                   Content_Type := "application/json" |}
         /\ exists address,
              url_of ev = Some address
              /\ String.prefix (toStr url ++ "/services/data/v59.0/tooling/") address
                 = true.
Proof.
  destruct (activateLatestFlow_log env f tok url tr) as (reqs & o & Hrun & Hlog).
  exists reqs, o. split; [ exact Hrun | ].
  intros ev Hin.
  assert (Hq : forall r q, ev = EGet (queryUrl url) (mkRequestHeaders tok) q r ->
            headers_of ev = Some (mkRequestHeaders tok)
            /\ exists address, url_of ev = Some address
                               /\ String.prefix (toolingRoot url) address = true).
  { intros r q ->. split; [ reflexivity | ].
    eexists. split; [ reflexivity | apply queryUrl_root ]. }
  assert (Hp : forall id n r, ev = activationPatch tok url id n r ->
            headers_of ev = Some (mkRequestHeaders tok)
            /\ exists address, url_of ev = Some address
                               /\ String.prefix (toolingRoot url) address = true).
  { intros id n r ->. split; [ reflexivity | ].
    eexists. split; [ reflexivity | apply definitionUrl_root ]. }
  destruct Hlog; simpl in Hin;
    repeat match goal with
           | H : _ \/ _ |- _ => destruct H
           | H : False |- _ => contradiction H
           end;
    subst ev;
    first [ eapply Hq; reflexivity | eapply Hp; reflexivity ].
Qed.

(** X11.  A response that has no usable [records] (the property is absent
    or falsy, or the body is not an object at all, such as a plain string)
    is read as "no record": at step 1 the activation reports that the flow
    was not found and sends nothing more. *)
Theorem response_without_records_reads_as_not_found (env : Env) (f : string)
    (tok url : JsVal) (tr : Log) (d1 : JsVal) :
  axios_get env tr (queryUrl url) (mkRequestHeaders tok) (toolingQuery f) = inr d1 ->
  readable d1 ->
  truthy (opt_prop d1 "records") = false ->
  activateLatestFlow env f tok url tr
    = (Val tt, (tr ++ [versionLookup f tok url (inr d1); status_line f FlowNotFound])%list).
Proof.
  intros H1 Hread Hfalsy.
  eapply activate_flow_not_found with (rec1 := JUndefined);
    [ exact H1 | | reflexivity ].
  unfold first_record. rewrite (readable_get_prop _ _ Hread), Hfalsy. reflexivity.
Qed.

Lemma response_without_records_reads_as_not_found_witness :
  activateLatestFlow Sample2.env_plain_body "FlowA"
    (JStr Sample.org1_token) (JStr Sample.org1_url) []
  = (Val tt,
     [versionLookup "FlowA" (JStr Sample.org1_token) (JStr Sample.org1_url)
        (inr (JStr "Service Unavailable"));
      status_line "FlowA" FlowNotFound]).
Proof.
  apply (response_without_records_reads_as_not_found Sample2.env_plain_body "FlowA"
           (JStr Sample.org1_token) (JStr Sample.org1_url) []
           (JStr "Service Unavailable")).
  - reflexivity.
  - split; discriminate.
  - reflexivity.
Defined.

Lemma lookup_queries_differ (f : string) (id : JsVal) :
  toolingQuery f <> definitionQuery f
  /\ toolingQuery f <> verificationQuery id
  /\ definitionQuery f <> verificationQuery id.
Proof.
  unfold toolingQuery, definitionQuery, verificationQuery.
  repeat split; cbn; intros H; discriminate H.
Qed.

(** X12.  An activation never retries: it sends between one and four
    requests, at most one of them a patch, and no query string twice. *)
Theorem activation_never_retries (env : Env) (f : string) (tok url : JsVal)
    (tr : Log) :
  exists reqs o,
    activateLatestFlow env f tok url tr
      = (Val tt, (tr ++ reqs ++ [status_line f o])%list)
    /\ 1 <= length reqs <= 4
    /\ length (filter is_patch reqs) <= 1
    /\ NoDup (queries_of reqs).
Proof.
  destruct (activateLatestFlow_log env f tok url tr) as (reqs & o & Hrun & Hlog).
  exists reqs, o. split; [ exact Hrun | ].
  split; [ exact (ActivationLog_length _ _ _ _ _ Hlog) | ].
  destruct (lookup_queries_differ f JUndefined) as (Htd & _).
  destruct Hlog; (split; [ simpl; lia | ]); simpl;
    repeat match goal with
           | |- NoDup [] => constructor
           | |- NoDup (_ :: _) => constructor
           | |- ~ In _ _ => simpl; intros Hin
           | H : _ \/ _ |- _ => destruct H
           | H : False |- _ => contradiction H
           end;
    try match goal with
        | H : definitionQuery f = toolingQuery f |- _ => symmetry in H
        | H : verificationQuery _ = toolingQuery f |- _ => symmetry in H
        | H : verificationQuery _ = definitionQuery f |- _ => symmetry in H
        end;
    match goal with
    | H : toolingQuery f = definitionQuery f |- _ => exact (Htd H)
    | H : toolingQuery f = verificationQuery ?id |- _ =>
        exact (proj1 (proj2 (lookup_queries_differ f id)) H)
    | H : definitionQuery f = verificationQuery ?id |- _ =>
        exact (proj2 (proj2 (lookup_queries_differ f id)) H)
    end.
Qed.

(** ** Formatting the flow names, on every input *)

Lemma split_semi_segments (s : string) :
  Forall (fun seg => count_char semicolon seg = 0) (split_semi s).
Proof.
  induction s as [| c s IH]; simpl.
  - repeat constructor.
  - destruct (Ascii.eqb c semicolon) eqn:E.
    + constructor; [ reflexivity | exact IH ].
    + destruct (split_semi s) as [| seg segs].
      * constructor; [ simpl; now rewrite E | constructor ].
      * inversion IH as [| ? ? Hseg Hsegs]; subst.
        constructor; [ simpl; rewrite E; exact Hseg | exact Hsegs ].
Qed.

(** X13.  On every input the formatted list has one entry per
    semicolon-separated segment; no entry contains a semicolon or has white
    space at either end; and formatting is stable: entering the entries
    again, joined by semicolons, gives the same list. *)
Theorem formatting_is_stable (input : string) :
  let names := flowQuestion_format input in
  length names = S (count_char semicolon input)
  /\ Forall (fun n => count_char semicolon n = 0 /\ trimmed n) names
  /\ flowQuestion_format (join_semi names) = names.
Proof.
  intros names.
  assert (Hlen : length names = S (count_char semicolon input)).
  { subst names. unfold flowQuestion_format. rewrite length_map.
    apply split_semi_length. }
  assert (Hall : Forall (fun n => count_char semicolon n = 0 /\ trimmed n) names).
  { subst names. unfold flowQuestion_format. apply Forall_map.
    eapply Forall_impl; [ | apply split_semi_segments ].
    intros seg Hseg. cbv beta in Hseg. split; [ | apply trim_trimmed ].
    unfold trim.
    pose proof (trimEnd_count semicolon (trimStart seg)).
    pose proof (trimStart_count semicolon seg). lia. }
  split; [ exact Hlen | split; [ exact Hall | ] ].
  unfold flowQuestion_format at 1. rewrite split_semi_join.
  - rewrite <- (map_id names) at 2. apply map_ext_in.
    intros n Hin. apply trim_fixed.
    rewrite Forall_forall in Hall. now apply Hall.
  - intros E. rewrite E in Hlen. discriminate.
  - eapply Forall_impl; [ | exact Hall ]. intros n [Hn _]. exact Hn.
Qed.

(** ** Requests need a confirmation *)

Lemma prologue_events (env : Env) (tr : Log) answer log1 :
  prologue env tr = (Val answer, log1) ->
  exists pro, log1 = (tr ++ pro)%list /\ existsb is_request pro = false.
Proof.
  intros Hp. destruct (prologue_log env tr) as (answer' & pro & Hp' & _ & Hreq).
  rewrite Hp in Hp'. injection Hp' as _ ->. exists pro. split; [ reflexivity | exact Hreq ].
Qed.

(** X14.  The script sends no HTTP request unless the operator has
    confirmed a selection of orgs: whenever the log of a run holds a
    request, it holds an org prompt that was answered with a selection and a
    yes. *)
Theorem no_request_without_confirmation (env : Env) (tr : Log) :
  exists evs,
    log_of (program env tr) = (tr ++ evs)%list
    /\ (existsb is_request evs = true ->
        exists choices answers selected,
          In (EPromptOrgs choices answers) evs
          /\ confirmation answers = Some true
          /\ selectedOrgs answers = Some selected).
Proof.
  destruct (program_run env tr)
    as [l Hp | names l r e Hp _ _ | names l out orgs answers Hp _ _ _
        | names l out orgs answers Hp _ _ _ _ | selected names log2 Hreach].
  1-4: destruct (prologue_events _ _ _ _ Hp) as (pro & -> & Hreq);
       eexists; (split; [ simpl log_of; rewrite <- app_assoc; reflexivity | ]);
       rewrite existsb_app, Hreq; simpl; discriminate.
  destruct Hreach as [names l out orgs choices answers selected Hp _ _ _ Hconf Hsel].
  destruct (prologue_events _ _ _ _ Hp) as (pro & -> & Hreq).
  destruct (activationLoop_extends env selected names
              ((tr ++ pro) ++ [EExec listCommand (inr out);
                               EPromptOrgs choices answers])%list) as (evs & Hevs).
  exists (pro ++ [EExec listCommand (inr out); EPromptOrgs choices answers] ++ evs)%list.
  split.
  - rewrite Hevs. rewrite <- !app_assoc. reflexivity.
  - intros _. exists choices, answers, selected.
    split; [ | split; assumption ].
    apply in_or_app. right. simpl. right. left. reflexivity.
Qed.
